(** * HttpServer.py: wire codec, error mapper and connection worker

    A shallow embedding of [src/HttpServer.py].  Python values are modelled
    as follows.

    - [bytes] is a list of 8-bit bytes.
    - [str] is a list of Unicode code points.  Decoding with ['iso-8859-1']
      sends byte [n] to code point [n]; encoding with it fails on a code
      point above 255, encoding with ['utf-8'] fails on a surrogate.
    - A binary stream ([rfile]) is the list of the bytes that are still
      unread; the peer closing its side is the end of the list.  Every read
      returns what was read together with the stream that is left.
    - [raise] is the left injection of a sum, [return] the right one.
    - What depends on the interpreter and on the machine, and not on the
      program, is a field of the class [runtime]: every definition that
      needs it takes the runtime as an argument and every theorem holds for
      all of them.

    The connection is a peer that sends its bytes and then closes its side
    in order, and that takes every byte written to it.  Failures of the
    socket ([ConnectionResetError], [BrokenPipeError] and the like, raised
    by a read or a write), a standard output that refuses the log line of
    [send_response], and a lack of memory other than for the buffer of
    [rfile.read] are outside the model. *)

From Stdlib Require Import String Ascii ZArith NArith Bool Lia List.
From Stdlib Require Import Strings.Byte DecimalString DecimalZ.
From Equations Require Import Equations.
Import ListNotations.
Local Open Scope Z_scope.

Set Implicit Arguments.

(** ** Bytes and text *)

Definition bytes := list byte.
Definition str := list N.

Definition len {A : Type} (l : list A) : Z := Z.of_nat (length l).

Definition bytes_eq_dec : forall a b : bytes, {a = b} + {a <> b} :=
  list_eq_dec Byte.byte_eq_dec.
Definition str_eq_dec : forall a b : str, {a = b} + {a <> b} :=
  list_eq_dec N.eq_dec.

(** [str(raw, 'iso-8859-1')] and [raw.decode('iso-8859-1')]: total. *)
Definition decode_latin1 (raw : bytes) : str := map Byte.to_N raw.

(** [s.encode('iso-8859-1')]: [None] stands for [UnicodeEncodeError]. *)
Fixpoint encode_latin1 (s : str) : option bytes :=
  match s with
  | [] => Some []
  | c :: s' =>
      match Byte.of_N c, encode_latin1 s' with
      | Some b, Some bs => Some (b :: bs)
      | _, _ => None
      end
  end.

(** Literals of the source: [b'...'] and ['...'] (ASCII only). *)
Definition b_ (s : string) : bytes := list_byte_of_string s.
Definition u (s : string) : str := decode_latin1 (list_byte_of_string s).

Definition CR : byte := x0d.
Definition LF : byte := x0a.
Definition CRLF : bytes := [CR; LF].

(** ** Constants *)

Definition MAX_LINE : Z := 64 * 1024.
Definition MAX_HEADERS : Z := 100.

(** ** Exceptions *)

(** [HTTPError] is the class of the source; the other constructors are the
    exceptions of the interpreter and of handlers that are not an
    [HTTPError], [Exception tag] standing for those of a class that is not
    named here. *)
Inductive exn : Type :=
| HTTPError (status : Z) (reason : str) (body : option str)
| UnicodeEncodeError
| ValueError
| ConnectionResetError
| OverflowError
| MemoryError
| KeyError
| Exception (tag : N).

Definition result (A : Type) : Type := (exn + A)%type.

(** An exception that code of the standard library can raise while it
    works on a text in memory: no [HTTPError], which is a class of this
    program, and no [ConnectionResetError], which takes a socket. *)
Definition of_library (e : exn) : bool :=
  match e with
  | HTTPError _ _ _ | ConnectionResetError => false
  | _ => true
  end.

(** ** The interpreter and the machine *)

(** - [mime_error text] is the exception that
      [email.parser.Parser().parsestr(text)] raises after it has parsed the
      header block of [text], while it parses the body of a message whose
      main content type is [message] or [multipart] (nested messages, the
      boundary parameter and its RFC 2231 decoding), and [None] when it
      raises none there.
    - [can_allocate size] tells whether a [bytes] object of [size] bytes
      can be allocated. *)
Class runtime : Type := {
  mime_error : str -> option exn;
  mime_error_of_library :
    forall text e, mime_error text = Some e -> of_library e = true;
  can_allocate : Z -> bool
}.

(** A 64-bit build of CPython: the largest [Py_ssize_t] and the size of
    the header of a [bytes] object. *)
Definition PY_SSIZE_T_MAX : Z := 2 ^ 63 - 1.
Definition PyBytesObject_SIZE : Z := 33.

(** ** Reading lines *)

(** [rfile.readline(size)] of a buffered binary stream: the bytes up to and
    including the first line feed, at most [size] of them (no bound when
    [size] is negative), fewer when the stream ends first. *)
Fixpoint readline (size : Z) (rfile : bytes) : bytes * bytes :=
  match rfile with
  | [] => ([], [])
  | b :: rest =>
      if size =? 0 then ([], rfile)
      else if Byte.eqb b LF then ([b], rest)
      else let '(line, rest') := readline (size - 1) rest in
           (b :: line, rest')
  end.

(** [rfile.read(size)] of the buffered reader of a socket.  The argument
    has to fit a [Py_ssize_t] ([OverflowError]) and to be at least [-1]
    ([ValueError]); [-1] reads to the end of the stream and [0] reads
    nothing; otherwise a buffer of [size] bytes is allocated first
    ([OverflowError] when no object can be that large, [MemoryError] when
    the machine has no room for it) and the call returns [size] bytes,
    fewer when the stream ends first. *)
Definition read `{runtime} (size : Z) (rfile : bytes)
  : result (bytes * bytes) :=
  if (size <? - PY_SSIZE_T_MAX - 1) || (PY_SSIZE_T_MAX <? size)
  then inl OverflowError
  else if size <? -1 then inl ValueError
  else if size =? -1 then inr (rfile, [])
  else if size =? 0 then inr ([], rfile)
  else if PY_SSIZE_T_MAX - PyBytesObject_SIZE <? size then inl OverflowError
  else if can_allocate size
       then inr (firstn (Z.to_nat size) rfile, skipn (Z.to_nat size) rfile)
       else inl MemoryError.

(** ** Splitting on whitespace *)

(** [c.isspace()] for one code point, as [str.split()] uses it. *)
Definition isspace (c : N) : bool :=
  (((9 <=? c) && (c <=? 13)) || ((28 <=? c) && (c <=? 32))
   || (c =? 133) || (c =? 160) || (c =? 5760)
   || ((8192 <=? c) && (c <=? 8202))
   || (c =? 8232) || (c =? 8233) || (c =? 8239) || (c =? 8287)
   || (c =? 12288))%N.

(** [s.split()]: the maximal runs of non-whitespace, in order.  [cur] is
    the run being read. *)
Fixpoint split_from (cur : str) (s : str) : list str :=
  match s with
  | [] => match cur with [] => [] | _ => [cur] end
  | c :: s' =>
      if isspace c
      then match cur with
           | [] => split_from [] s'
           | _ => cur :: split_from [] s'
           end
      else split_from (cur ++ [c]) s'
  end.

Definition split (s : str) : list str := split_from [] s.

(** ** HTTPServer.parse_request_line *)

(** The stream is an object that the call advances, also when it raises:
    [parse_request_line_at] gives the result of the call together with the
    stream as the call leaves it. *)
Definition parse_request_line_at (rfile : bytes)
  : result (str * str * str) * bytes :=
  let '(raw, rfile') := readline (MAX_LINE + 1) rfile in
  (if len raw >? MAX_LINE
   then inl (HTTPError 400 (u "Bad request") (Some (u "Request line is too long")))
   else
     let req_line := decode_latin1 raw in
     let words := split req_line in
     if negb (len words =? 3)
     then inl (HTTPError 400 (u "Bad request") (Some (u "Malformed request line")))
     else
       match words with
       | [method; target; ver] =>
           if str_eq_dec ver (u "HTTP/1.1")
           then inr (method, target, ver)
           else inl (HTTPError 505 (u "HTTP Version Not Supported") None)
       | _ => inl ValueError
       end,
   rfile').

(** The call as its caller sees it: the three words and the stream to go
    on with, or the exception. *)
Definition parse_request_line (rfile : bytes)
  : result (str * str * str * bytes) :=
  match parse_request_line_at rfile with
  | (inl e, _) => inl e
  | (inr (method, target, ver), rfile') => inr (method, target, ver, rfile')
  end.

(** ** HTTPServer.parse_headers: the reading loop *)

Definition is_blank (line : bytes) : bool :=
  if bytes_eq_dec line CRLF then true
  else if bytes_eq_dec line [LF] then true
  else if bytes_eq_dec line [] then true
  else false.

Lemma readline_app (size : Z) (rfile : bytes) :
  fst (readline size rfile) ++ snd (readline size rfile) = rfile.
Proof.
  revert size; induction rfile as [|b rest IH]; intros size; simpl.
  - reflexivity.
  - destruct (size =? 0); [reflexivity|].
    destruct (Byte.eqb b LF); [reflexivity|].
    specialize (IH (size - 1)).
    destruct (readline (size - 1) rest) as [line rest']; simpl in *.
    now rewrite IH.
Qed.

Lemma readline_shorter (size : Z) (rfile line rfile' : bytes) :
  readline size rfile = (line, rfile') ->
  is_blank line = false ->
  (length rfile' < length rfile)%nat.
Proof.
  intros Hr Hb.
  pose proof (readline_app size rfile) as Happ.
  rewrite Hr in Happ; simpl in Happ.
  rewrite <- Happ, length_app.
  destruct line as [|b l]; [discriminate Hb|simpl; lia].
Qed.

Definition inspect {A : Type} (a : A) : {b : A | a = b} := exist _ a eq_refl.

(** The [while True] loop of [parse_headers]: [headers] is the list built
    so far, [rfile] the stream.  Every round that goes on has taken a
    non-empty line off the stream.  The result comes with the stream as
    the loop leaves it. *)
Equations parse_headers_loop_at (headers : list bytes) (rfile : bytes)
  : result (list bytes) * bytes by wf (length rfile) lt :=
  parse_headers_loop_at headers rfile
    with inspect (readline (MAX_LINE + 1) rfile) := {
    | exist _ (line, rfile') Hread with len line >? MAX_LINE := {
      | true := (inl (HTTPError 494 (u "Request header too large") None),
                 rfile')
      | false with inspect (is_blank line) := {
        | exist _ true _ := (inr headers, rfile')
        | exist _ false Hblank
            with len (headers ++ [line]) >? MAX_HEADERS := {
          | true := (inl (HTTPError 494 (u "Too many headers") None), rfile')
          | false := parse_headers_loop_at (headers ++ [line]) rfile'
          }
        }
      }
    }.
Next Obligation.
  eapply readline_shorter; eauto.
Qed.

(** The loop as [parse_headers] goes on from it: the list and the stream,
    or the exception. *)
Definition parse_headers_loop (headers : list bytes) (rfile : bytes)
  : result (list bytes * bytes) :=
  match parse_headers_loop_at headers rfile with
  | (inl e, _) => inl e
  | (inr headers', rfile') => inr (headers', rfile')
  end.

(** ** The standard library's email parser

    [parse_headers] hands the header block to [email.parser.Parser().parsestr]
    and [parse_request] queries the [Message] it returns.  The module below
    follows [email.feedparser] and [email.message] under the default
    [compat32] policy, for the part that builds and reads the header list. *)
Module email.

(** A [Message] is its list [_headers] of (name, value) pairs, in the
    order parsed; a name may occur more than once. *)
Definition Message : Type := list (str * str).

(** [BufferedSubFile]: the text is cut into lines with universal
    newlines, a line ending at ['\n'], ['\r'] or ['\r\n'] and keeping its
    ending.  [cur] is the line being read. *)
Fixpoint readlines_from (cur : str) (s : str) : list str :=
  match s with
  | [] => match cur with [] => [] | _ => [cur] end
  | c :: s' =>
      if (c =? 13)%N then
        match s' with
        | c' :: s'' =>
            if (c' =? 10)%N
            then (cur ++ [c; c']) :: readlines_from [] s''
            else (cur ++ [c]) :: readlines_from [] s'
        | [] => [cur ++ [c]]
        end
      else if (c =? 10)%N then (cur ++ [c]) :: readlines_from [] s'
      else readlines_from (cur ++ [c]) s'
  end.

Definition readlines (text : str) : list str := readlines_from [] text.

Fixpoint startswith (prefix s : str) : bool :=
  match prefix, s with
  | [], _ => true
  | p :: prefix', c :: s' => (p =? c)%N && startswith prefix' s'
  | _ :: _, [] => false
  end.

(** The class [[\041-\071\073-\176]] of [headerRE]: printable ASCII
    without the colon. *)
Definition fieldchar (c : N) : bool :=
  (((33 <=? c) && (c <=? 57)) || ((59 <=? c) && (c <=? 126)))%N.

(** [[\041-\071\073-\176]*:] at the start of the line. *)
Fixpoint fieldname_colon (line : str) : bool :=
  match line with
  | [] => false
  | c :: line' =>
      if (c =? 58)%N then true
      else if fieldchar c then fieldname_colon line'
      else false
  end.

(** [line[0] in ' \t'] *)
Definition is_continuation (line : str) : bool :=
  match line with
  | c :: _ => ((c =? 32) || (c =? 9))%N
  | [] => false
  end.

(** [headerRE.match(line)] with
    [headerRE = re.compile(r'^(From |[\041-\071\073-\176]*:|[\t ])')]. *)
Definition headerRE_match (line : str) : bool :=
  startswith (u "From ") line || fieldname_colon line
  || is_continuation line.

(** [_parsegen] collects the lines up to the first one [headerRE] does
    not match. *)
Fixpoint header_lines (lines : list str) : list str :=
  match lines with
  | [] => []
  | line :: rest =>
      if headerRE_match line then line :: header_lines rest else []
  end.

(** [line.split(':', 1)] of a line that holds a colon. *)
Fixpoint split_colon (line : str) : str * str :=
  match line with
  | [] => ([], [])
  | c :: line' =>
      if (c =? 58)%N then ([], line')
      else let '(name, value) := split_colon line' in (c :: name, value)
  end.

(** [value.lstrip(' \t')] *)
Fixpoint lstrip_blank (value : str) : str :=
  match value with
  | c :: value' =>
      if ((c =? 32) || (c =? 9))%N then lstrip_blank value' else value
  | [] => []
  end.

Fixpoint lstrip_crlf (value : str) : str :=
  match value with
  | c :: value' =>
      if ((c =? 13) || (c =? 10))%N then lstrip_crlf value' else value
  | [] => []
  end.

(** [value.rstrip('\r\n')] *)
Definition rstrip_crlf (value : str) : str := rev (lstrip_crlf (rev value)).

(** [Compat32.header_source_parse]. *)
Definition header_source_parse (sourcelines : list str) : str * str :=
  match sourcelines with
  | [] => ([], [])
  | first :: more =>
      let '(name, value) := split_colon first in
      (name, rstrip_crlf (lstrip_blank value ++ concat more))
  end.

(** [if lastheader: self._cur.set_raw(...)] *)
Definition flush (lastheader : str) (lastvalue : list str) (msg : Message)
  : Message :=
  match lastheader with
  | [] => msg
  | _ => msg ++ [header_source_parse lastvalue]
  end.

(** [FeedParser._parse_headers]: [n] is [len(lines)] and [lineno] the
    index of the head of [lines].  A line that reaches the last case
    matched [headerRE] by its second alternative, so it holds a colon. *)
Fixpoint parse_headers_from (n lineno : nat) (lines : list str)
  (lastheader : str) (lastvalue : list str) (msg : Message) : Message :=
  match lines with
  | [] => flush lastheader lastvalue msg
  | line :: rest =>
      if is_continuation line then
        match lastheader with
        | [] => parse_headers_from n (S lineno) rest lastheader lastvalue msg
        | _ => parse_headers_from n (S lineno) rest lastheader
                 (lastvalue ++ [line]) msg
        end
      else
        let msg' := flush lastheader lastvalue msg in
        if startswith (u "From ") line then
          if (lineno =? 0)%nat
          then parse_headers_from n (S lineno) rest [] [] msg'
          else if (lineno =? n - 1)%nat then msg'
          else parse_headers_from n (S lineno) rest [] [] msg'
        else
          match fst (split_colon line) with
          | [] => parse_headers_from n (S lineno) rest [] [] msg'
          | name => parse_headers_from n (S lineno) rest name [line] msg'
          end
  end.


(** The header block of [text] as [_parsegen] reads it into the root
    message, before it turns to the body. *)
Definition header_block (text : str) : Message :=
  let lines := header_lines (readlines text) in
  parse_headers_from (length lines) 0 lines [] [] [].

(** [s.lower()], exact on the code points below 256, which are the only
    ones a text decoded from ISO-8859-1 holds. *)
Definition lower_char (c : N) : N :=
  (if ((65 <=? c) && (c <=? 90))
      || ((192 <=? c) && (c <=? 222) && negb (c =? 215))
   then c + 32 else c)%N.

Definition lower (s : str) : str := map lower_char s.

(** [Message.get(name)]: the value of the first header whose name is
    [name] up to case, [None] when there is none. *)
Fixpoint get (msg : Message) (name : str) : option str :=
  match msg with
  | [] => None
  | (k, v) :: msg' =>
      if str_eq_dec (lower k) (lower name) then Some v else get msg' name
  end.


(** [s.strip()]: whitespace is taken off both ends. *)
Fixpoint lstrip (s : str) : str :=
  match s with
  | c :: s' => if isspace c then lstrip s' else s
  | [] => []
  end.

Definition strip (s : str) : str := rev (lstrip (rev (lstrip s))).

(** [s.partition(sep)[0]], also [s.split(sep)[0]]: what comes before the
    first [sep]. *)
Fixpoint before (sep : N) (s : str) : str :=
  match s with
  | [] => []
  | c :: s' => if (c =? sep)%N then [] else c :: before sep s'
  end.

(** [s.count(sep)] *)
Definition count (sep : N) (s : str) : nat :=
  length (filter (N.eqb sep) s).

(** [Message.get_content_type] of a root message, whose default type is
    ['text/plain']; 59 is the semicolon and 47 the slash. *)
Definition get_content_type (msg : Message) : str :=
  match get msg (u "content-type") with
  | None => u "text/plain"
  | Some value =>
      let ctype := lower (strip (before 59 value)) in
      if (count 47 ctype =? 1)%nat then ctype else u "text/plain"
  end.

(** [Message.get_content_maintype] *)
Definition get_content_maintype (msg : Message) : str :=
  before 47 (get_content_type msg).

(** [Parser().parsestr(text)]: the root message with the header block of
    [text].  After the header block the parser looks at the content type:
    for main type [message] it parses the body as messages of their own,
    for [multipart] it calls [get_boundary] and cuts the body into parts,
    and either can raise; for any other type the rest of the text becomes
    the payload as it is. *)
Definition parsestr `{runtime} (text : str) : result Message :=
  let msg := header_block text in
  let maintype := get_content_maintype msg in
  if str_eq_dec maintype (u "message") then
    match mime_error text with
    | Some e => inl e
    | None => inr msg
    end
  else if str_eq_dec maintype (u "multipart") then
    match mime_error text with
    | Some e => inl e
    | None => inr msg
    end
  else inr msg.

End email.

(** ** HTTPServer.parse_headers *)

Definition parse_headers_at `{runtime} (rfile : bytes)
  : result email.Message * bytes :=
  match parse_headers_loop_at [] rfile with
  | (inl e, rfile') => (inl e, rfile')
  | (inr headers, rfile') =>
      let sheaders := decode_latin1 (concat headers) in
      (email.parsestr sheaders, rfile')
  end.

Definition parse_headers `{runtime} (rfile : bytes)
  : result (email.Message * bytes) :=
  match parse_headers_at rfile with
  | (inl e, _) => inl e
  | (inr headers, rfile') => inr (headers, rfile')
  end.

(** ** Request *)

(** [int(s)] in base 10 for a text of code points below 256.  A space
    above U+007E counts as a blank; blanks are skipped at both ends; one
    sign may come first; digits may be grouped by single underscores; more
    than [int_max_str_digits] digits are refused.  [None] stands for
    [ValueError]. *)
Definition int_max_str_digits : Z := 4300.

Definition c_isspace (c : N) : bool :=
  (((9 <=? c) && (c <=? 13)) || (c =? 32))%N.

Definition is_digit (c : N) : bool := ((48 <=? c) && (c <=? 57))%N.

Definition to_ascii_space (c : N) : option N :=
  if (c <? 127)%N then Some c
  else if isspace c then Some 32%N
  else None.

Fixpoint transform_space (s : str) : option str :=
  match s with
  | [] => Some []
  | c :: s' =>
      match to_ascii_space c, transform_space s' with
      | Some c', Some t => Some (c' :: t)
      | _, _ => None
      end
  end.

Fixpoint skip_space (s : str) : str :=
  match s with
  | c :: s' => if c_isspace c then skip_space s' else s
  | [] => []
  end.

(** The run of digits at the head of [s]: its value, the number of digits
    and what follows; [None] on a doubled or trailing underscore. *)
Fixpoint scan_digits (acc ndigits : Z) (s : str) : option (Z * Z * str) :=
  match s with
  | [] => Some (acc, ndigits, [])
  | c :: s' =>
      if is_digit c
      then scan_digits (acc * 10 + (Z.of_N c - 48)) (ndigits + 1) s'
      else if (c =? 95)%N then
        match s' with
        | c' :: s'' =>
            if is_digit c'
            then scan_digits (acc * 10 + (Z.of_N c' - 48)) (ndigits + 1) s''
            else None
        | [] => None
        end
      else Some (acc, ndigits, s)
  end.

Definition int (s : str) : option Z :=
  match transform_space s with
  | None => None
  | Some t =>
      let t := skip_space t in
      let '(sign, t) :=
        match t with
        | c :: t' =>
            if (c =? 43)%N then (1, t')
            else if (c =? 45)%N then (-1, t')
            else (1, t)
        | [] => (1, t)
        end in
      match t with
      | c :: _ =>
          if (c =? 95)%N then None
          else
            match scan_digits 0 0 t with
            | None => None
            | Some (n, ndigits, rest) =>
                if ndigits =? 0 then None
                else if ndigits >? int_max_str_digits then None
                else match skip_space rest with
                     | [] => Some (sign * n)
                     | _ => None
                     end
            end
      | [] => None
      end
  end.

Module Request.

Record t : Type := mk {
  method : str;
  target : str;
  version : str;
  headers : email.Message;
  rfile : bytes
}.

(** [Request.body]: the bytes returned ([None] for Python's [None]) and
    the request with its stream advanced. *)
Definition body `{runtime} (self : t) : result (option bytes * t) :=
  match email.get (headers self) (u "Content-Length") with
  | None => inr (None, self)
  | Some [] => inr (None, self)
  | Some size =>
      match int size with
      | None => inl ValueError
      | Some n =>
          match read n (rfile self) with
          | inl e => inl e
          | inr (data, rest) =>
              inr (Some data,
                   mk (method self) (target self) (version self)
                      (headers self) rest)
          end
      end
  end.

End Request.

(** ** HTTPServer.parse_request *)

Definition parse_request `{runtime} (conn : bytes) : result Request.t :=
  let rfile := conn in
  match parse_request_line rfile with
  | inl e => inl e
  | inr (method, target, ver, rfile) =>
      match parse_headers rfile with
      | inl e => inl e
      | inr (headers, rfile) =>
          match email.get headers (u "Host") with
          | None | Some [] =>
              inl (HTTPError 400 (u "Bad request")
                     (Some (u "Host header is missing")))
          | Some _ => inr (Request.mk method target ver headers rfile)
          end
      end
  end.

(** ** Response *)

(** The values the source formats into a header line: the handlers pass
    texts and integers ([len(body)]). *)
Inductive obj : Type :=
| Str (s : str)
| Int (n : Z).

(** [str(n)] for an integer: its decimal numeral. *)
Definition str_of_int (n : Z) : str :=
  u (NilZero.string_of_int (Z.to_int n)).

(** [f'{value}']: an integer of more than [int_max_str_digits] digits,
    the sign not counted, is not converted ([ValueError]). *)
Definition format (value : obj) : result str :=
  match value with
  | Str s => inr s
  | Int n =>
      if len (str_of_int (Z.abs n)) >? int_max_str_digits
      then inl ValueError
      else inr (str_of_int n)
  end.

Module Response.

Record t : Type := mk {
  status : Z;
  reason : str;
  headers : option (list (str * obj));
  body : option bytes
}.

End Response.

(** ** HTTPServer.send_response *)

Definition crlf : str := [13%N; 10%N].

(** [wfile.write(data)]: [wfile] is what has been written so far. *)
Definition write (wfile : bytes) (data : bytes) : bytes := wfile ++ data.

(** [f'HTTP/1.1 {resp.status} {resp.reason}\r\n'] *)
Definition status_line (resp : Response.t) : result str :=
  match format (Int (Response.status resp)) with
  | inl e => inl e
  | inr status =>
      inr (u "HTTP/1.1 " ++ status ++ u " " ++ Response.reason resp ++ crlf)
  end.

(** [f'{key}: {value}\r\n'] *)
Definition header_line (h : str * obj) : result str :=
  let '(key, value) := h in
  match format value with
  | inl e => inl e
  | inr value => inr (key ++ u ": " ++ value ++ crlf)
  end.

(** [text.encode('iso-8859-1')] of a text that was formatted. *)
Definition encode_line (text : result str) : result bytes :=
  match text with
  | inl e => inl e
  | inr text =>
      match encode_latin1 text with
      | None => inl UnicodeEncodeError
      | Some data => inr data
      end
  end.

(** The [for] loop over [resp.headers]. *)
Fixpoint write_headers (wfile : bytes) (headers : list (str * obj))
  : result bytes :=
  match headers with
  | [] => inr wfile
  | h :: headers' =>
      match encode_line (header_line h) with
      | inl e => inl e
      | inr data => write_headers (write wfile data) headers'
      end
  end.

(** [send_response] returns the bytes that were written to the connection
    and flushed.  What reaches the peer when a line fails half-way is not
    modelled: the call then only raises. *)
Definition send_response (resp : Response.t) : result bytes :=
  let wfile := [] in
  match encode_line (status_line resp) with
  | inl e => inl e
  | inr data =>
      let wfile := write wfile data in
      let written :=
        match Response.headers resp with
        | Some ((_ :: _) as headers) => write_headers wfile headers
        | _ => inr wfile
        end in
      match written with
      | inl e => inl e
      | inr wfile =>
          let wfile := write wfile CRLF in
          let wfile :=
            match Response.body resp with
            | Some ((_ :: _) as body) => write wfile body
            | _ => wfile
            end in
          inr wfile
      end
  end.

(** ** UTF-8 *)

Definition byte_of_N (n : N) : byte :=
  match Byte.of_N n with
  | Some b => b
  | None => x00
  end.

Definition utf8_char (c : N) : option bytes :=
  (if c <? 128 then Some [byte_of_N c]
   else if c <? 2048 then
     Some [byte_of_N (N.lor 192 (N.shiftr c 6));
           byte_of_N (N.lor 128 (N.land c 63))]
   else if (55296 <=? c) && (c <=? 57343) then None
   else if c <? 65536 then
     Some [byte_of_N (N.lor 224 (N.shiftr c 12));
           byte_of_N (N.lor 128 (N.land (N.shiftr c 6) 63));
           byte_of_N (N.lor 128 (N.land c 63))]
   else if c <? 1114112 then
     Some [byte_of_N (N.lor 240 (N.shiftr c 18));
           byte_of_N (N.lor 128 (N.land (N.shiftr c 12) 63));
           byte_of_N (N.lor 128 (N.land (N.shiftr c 6) 63));
           byte_of_N (N.lor 128 (N.land c 63))]
   else None)%N.

(** [s.encode('utf-8')]: [None] stands for [UnicodeEncodeError], raised on
    a surrogate. *)
Fixpoint encode_utf8 (s : str) : option bytes :=
  match s with
  | [] => Some []
  | c :: s' =>
      match utf8_char c, encode_utf8 s' with
      | Some b, Some bs => Some (b ++ bs)
      | _, _ => None
      end
  end.

(** ** The worker registry *)

Definition thread : Type := nat.

(** What a thread does that another thread, the peer or the handler can
    observe, in program order. *)
Inductive event : Type :=
| Handle (req : Request.t)       (* handle_request(req) is called *)
| Send (resp : Response.t)       (* send_response(conn, resp) is called *)
| CloseConn                      (* conn.close() *)
| CloseRfile                     (* req.rfile.close() *)
| Start (th : thread)            (* th.start() *)
| Add (th : thread)              (* self._threads.add(th) *)
| Acquire                        (* self._lock.acquire() *)
| Remove (th : thread)           (* self._threads.remove(th) *)
| Release.                       (* self._lock.release() *)

(** ** The shared state of the server *)

(** The registry [self._threads] is a set; [remove] raises [KeyError]
    ([None]) when the element is not in it.  The set is kept as a list
    without repetition. *)
Definition registry : Type := list thread.

Definition registry_add (th : thread) (threads : registry) : registry :=
  if in_dec Nat.eq_dec th threads then threads else th :: threads.

Definition registry_remove (th : thread) (threads : registry)
  : option registry :=
  if in_dec Nat.eq_dec th threads
  then Some (List.remove Nat.eq_dec th threads)
  else None.

(** What the threads of one server share: the registry and the lock
    [self._lock].  A thread that takes the lock when it is free runs to
    its [release] before another thread gets it, so between the steps of
    this model the lock is held only when a thread has ended without
    releasing it; [s_lock] says so, and the lock is then never free
    again. *)
Record server : Type := mk_server {
  s_threads : registry;
  s_lock : bool
}.

(** How a thread ends: it returns, it raises, or it waits for ever. *)
Inductive outcome : Type :=
| Returns
| Raises (e : exn)
| Blocks.

(** Lines 108 to 110 of [serve_client], run by [th]:
    [acquire] waits while the lock is held; [remove] raises [KeyError]
    when [th] is not in the registry, and [release] is then not reached. *)
Definition remove_current_thread (th : thread) (self : server)
  : list event * outcome * server :=
  if s_lock self then ([Acquire], Blocks, self)
  else
    match registry_remove th (s_threads self) with
    | Some threads' =>
        ([Acquire; Remove th; Release], Returns, mk_server threads' false)
    | None =>
        ([Acquire; Remove th], Raises KeyError,
         mk_server (s_threads self) true)
    end.

(** ** HTTPServer.send_error and HTTPServer.serve_client *)

Section Server.

Context {rt : runtime}.

(** [err.__str__()], whatever the class of [err] makes of it. *)
Variable describe : exn -> str.

(** The abstract method of the class. *)
Variable handle_request : Request.t -> result Response.t.

(** The [Response] that [send_error] builds.  The [try] block fails with
    an [AttributeError] when [err] has no [status], and with a
    [UnicodeEncodeError] when the text cannot be encoded; the [except]
    block then takes over, and what it raises is not caught. *)
Definition error_response (err : exn) : result Response.t :=
  let attempt :=
    match err with
    | HTTPError status reason body =>
        let text :=
          match body with
          | Some ((_ :: _) as text) => text
          | _ => reason
          end in
        match encode_utf8 text with
        | Some body => Some (status, reason, body)
        | None => None
        end
    | _ => None
    end in
  match attempt with
  | Some (status, reason, body) =>
      inr (Response.mk status reason
             (Some [(u "Content-Length", Int (len body))]) (Some body))
  | None =>
      match encode_utf8 (describe err) with
      | Some body =>
          inr (Response.mk 500 (u "Internal Server Error")
                 (Some [(u "Content-Length", Int (len body))]) (Some body))
      | None => inl UnicodeEncodeError
      end
  end.

Definition send_error (err : exn) : result bytes :=
  match error_response err with
  | inl e => inl e
  | inr resp => send_response resp
  end.

(** The [try] statement of [serve_client]: the events, the request when
    it was parsed, and the exception that left the [try] block. *)
Definition serve_client_try (conn : bytes)
  : list event * option Request.t * option exn :=
  match parse_request conn with
  | inl e => ([], None, Some e)
  | inr req =>
      match handle_request req with
      | inl e => ([Handle req], Some req, Some e)
      | inr resp =>
          match send_response resp with
          | inl e => ([Handle req; Send resp], Some req, Some e)
          | inr _ => ([Handle req; Send resp], Some req, None)
          end
      end
  end.

(** [serve_client], run by the thread [th] ([current_thread()]) on a
    server in the state [self]: its events, how it ends and the state it
    leaves.  An exception that [send_error] raises is not caught: the
    thread ends with it before line 103. *)
Definition serve_client (th : thread) (conn : bytes) (self : server)
  : list event * outcome * server :=
  let '(tried, req, raised) := serve_client_try conn in
  let handled : (list event * exn) + (list event * bool) :=
    match raised with
    | None => inr (tried, true)
    | Some ConnectionResetError => inr (tried, false)
    | Some e =>
        match error_response e with
        | inl e' => inl (tried, e')
        | inr resp =>
            match send_response resp with
            | inl e' => inl (tried ++ [Send resp], e')
            | inr _ => inr (tried ++ [Send resp], true)
            end
        end
    end in
  match handled with
  | inl (events, e) => (events, Raises e, self)
  | inr (events, conn_open) =>
      let '(last, ending, self') := remove_current_thread th self in
      (events
         ++ (if conn_open then [CloseConn] else [])
         ++ (match req with Some _ => [CloseRfile] | None => [] end)
         ++ last,
       ending, self')
  end.

(** One round of the [while True] loop of [serve_forever], lines 79 to
    83, together with the thread that it starts: the events of both
    threads in an order in which they can happen, how the worker ends
    and the state that is left when both are through.  [th.start()] sets
    the worker going, and whether the worker gets to line 108 before the
    accepting thread gets to line 83 is up to the scheduler:
    [worker_first] tells.  The registry and the lock are touched by these
    lines only, so where line 83 falls among the other events of the
    worker makes no difference. *)
Definition serve_forever_round (worker_first : bool) (th : thread)
  (conn : bytes) (self : server) : list event * outcome * server :=
  if worker_first then
    let '(events, ending, self') := serve_client th conn self in
    (Start th :: events ++ [Add th], ending,
     mk_server (registry_add th (s_threads self')) (s_lock self'))
  else
    let '(events, ending, self') :=
      serve_client th conn
        (mk_server (registry_add th (s_threads self)) (s_lock self)) in
    (Start th :: Add th :: events, ending, self').

End Server.

(** * Shapes of well-formed input *)

(** A line as [readline] cuts it: its only line feed is its last byte. *)
Fixpoint is_line (l : bytes) : bool :=
  match l with
  | [] => false
  | b :: l' =>
      if Byte.eqb b LF
      then match l' with [] => true | _ => false end
      else is_line l'
  end.

(** A header line that is read and kept: a line within the limit that
    does not end the header block. *)
Definition is_header_line (l : bytes) : bool :=
  is_line l && negb (is_blank l) && (len l <=? MAX_LINE).

(** The end of a header block: a blank line and then the body, or the end
    of the stream. *)
Definition body_after (tail : bytes) : option bytes :=
  match tail with
  | [] => Some []
  | b :: tail' =>
      if Byte.eqb b LF then Some tail'
      else if Byte.eqb b CR then
        match tail' with
        | b' :: body => if Byte.eqb b' LF then Some body else None
        | [] => None
        end
      else None
  end.

(** A token: a non-empty run without whitespace.  A gap: a non-empty run
    of whitespace. *)
Definition is_token (s : str) : bool :=
  match s with
  | [] => false
  | _ => forallb (fun c => negb (isspace c)) s
  end.

Definition is_gap (s : str) : bool :=
  match s with
  | [] => false
  | _ => forallb isspace s
  end.

(** Tokens, each followed by a gap. *)
Fixpoint spaced (items : list (str * str)) : str :=
  match items with
  | [] => []
  | (token, gap) :: items' => token ++ gap ++ spaced items'
  end.

Definition is_item (item : str * str) : bool :=
  is_token (fst item) && is_gap (snd item).

(** The first line of a stream, whatever its length: [rfile.readline()]. *)
Definition first_line (rfile : bytes) : bytes := fst (readline (-1) rfile).

(** Comparison of header names up to ASCII case. *)
Definition ascii_lower_char (c : N) : N :=
  (if (65 <=? c) && (c <=? 90) then c + 32 else c)%N.

Definition same_name (a b : str) : bool :=
  if str_eq_dec (map ascii_lower_char a) (map ascii_lower_char b)
  then true else false.

(** The first header of the list with the given name, up to ASCII case. *)
Definition first_named (name : str) (headers : email.Message)
  : option (str * str) :=
  find (fun h => same_name (fst h) name) headers.

Definition is_acquire (e : event) : bool :=
  match e with Acquire => true | _ => false end.

Definition is_release (e : event) : bool :=
  match e with Release => true | _ => false end.

(** The events on the registry and on its lock. *)
Definition on_registry (e : event) : bool :=
  match e with
  | Add _ | Remove _ | Acquire | Release => true
  | _ => false
  end.

(** Events that touch neither the registry nor the lock. *)
Definition quiet (events : list event) : bool :=
  forallb (fun e => negb (on_registry e)) events.

(** A text that ISO-8859-1 can encode: no code point above 255. *)
Definition encodable (s : str) : bool := forallb (fun c => (c <=? 255)%N) s.

(** The decimal numeral of an integer, as bytes. *)
Definition bytes_of_int (n : Z) : bytes :=
  b_ (NilZero.string_of_int (Z.to_int n)).

Definition is_handle (e : event) : bool :=
  match e with Handle _ => true | _ => false end.

(** The errors that [parse_request] raises. *)
Definition parse_errors : list exn :=
  [HTTPError 400 (u "Bad request") (Some (u "Request line is too long"));
   HTTPError 400 (u "Bad request") (Some (u "Malformed request line"));
   HTTPError 505 (u "HTTP Version Not Supported") None;
   HTTPError 494 (u "Request header too large") None;
   HTTPError 494 (u "Too many headers") None;
   HTTPError 400 (u "Bad request") (Some (u "Host header is missing"))].



(** The calls a worker makes: of the handler and of [send_response]. *)
Definition is_call (e : event) : bool :=
  match e with Handle _ | Send _ => true | _ => false end.




(** The digits of a decimal numeral, as code points, and the value that
    reading them from the left gives, starting from [acc]. *)
Fixpoint digits (d : Decimal.uint) : str :=
  match d with
  | Decimal.Nil => []
  | Decimal.D0 d => 48%N :: digits d
  | Decimal.D1 d => 49%N :: digits d
  | Decimal.D2 d => 50%N :: digits d
  | Decimal.D3 d => 51%N :: digits d
  | Decimal.D4 d => 52%N :: digits d
  | Decimal.D5 d => 53%N :: digits d
  | Decimal.D6 d => 54%N :: digits d
  | Decimal.D7 d => 55%N :: digits d
  | Decimal.D8 d => 56%N :: digits d
  | Decimal.D9 d => 57%N :: digits d
  end.

Fixpoint horner (acc : Z) (d : Decimal.uint) : Z :=
  match d with
  | Decimal.Nil => acc
  | Decimal.D0 d => horner (acc * 10 + 0) d
  | Decimal.D1 d => horner (acc * 10 + 1) d
  | Decimal.D2 d => horner (acc * 10 + 2) d
  | Decimal.D3 d => horner (acc * 10 + 3) d
  | Decimal.D4 d => horner (acc * 10 + 4) d
  | Decimal.D5 d => horner (acc * 10 + 5) d
  | Decimal.D6 d => horner (acc * 10 + 6) d
  | Decimal.D7 d => horner (acc * 10 + 7) d
  | Decimal.D8 d => horner (acc * 10 + 8) d
  | Decimal.D9 d => horner (acc * 10 + 9) d
  end.

(** A code point that UTF-8 can encode: below U+110000 and no
    surrogate. *)
Definition is_scalar (c : N) : bool :=
  (negb ((55296 <=? c) && (c <=? 57343)) && (c <? 1114112))%N.

(** The text of a formatted value, and whether the interpreter converts
    it: an integer of at most [int_max_str_digits] digits. *)
Definition text_of (value : obj) : str :=
  match value with
  | Str s => s
  | Int n => str_of_int n
  end.

Definition fits (value : obj) : bool :=
  match value with
  | Str _ => true
  | Int n => len (str_of_int (Z.abs n)) <=? int_max_str_digits
  end.

(** A header block that announces a body made of messages or of parts:
    its first Content-Type header, up to the first semicolon and without
    the whitespace around it, is a type with exactly one slash whose main
    type is "message" or "multipart" up to ASCII case. *)
Definition is_container (headers : email.Message) : bool :=
  match first_named (u "Content-Type") headers with
  | None => false
  | Some (_, value) =>
      let ctype := email.strip (email.before 59 value) in
      (email.count 47 ctype =? 1)%nat
      && (same_name (email.before 47 ctype) (u "message")
          || same_name (email.before 47 ctype) (u "multipart"))
  end.

(** A runtime for the examples: the parser of nested messages raises
    nothing, and buffers of up to a mebibyte can be allocated. *)
Definition typical : runtime :=
  {| mime_error := fun _ => None;
     mime_error_of_library := fun text e H =>
       match H in (_ = x) return
             (match x with Some _ => of_library e = true | None => True end)
       with eq_refl => I end;
     can_allocate := fun size => size <=? 1024 * 1024 |}.

(** * Lemmas *)

Arguments u : simpl never.

Lemma parse_headers_loop_at_step (headers : list bytes) (rfile : bytes) :
  parse_headers_loop_at headers rfile =
  let '(line, rfile') := readline (MAX_LINE + 1) rfile in
  if len line >? MAX_LINE
  then (inl (HTTPError 494 (u "Request header too large") None), rfile')
  else if is_blank line then (inr headers, rfile')
  else if len (headers ++ [line]) >? MAX_HEADERS
       then (inl (HTTPError 494 (u "Too many headers") None), rfile')
       else parse_headers_loop_at (headers ++ [line]) rfile'.
Proof.
  funelim (parse_headers_loop_at headers rfile);
    rewrite <- ?Heqcall; clear Heqcall;
    repeat match goal with
           | H : inspect _ = _ |- _ => clear H
           | H : readline _ _ = _ |- _ => rewrite H
           | H : is_blank _ = _ |- _ => rewrite H
           | H : (_ >? _) = _ |- _ => rewrite H
           end; reflexivity.
Qed.

Lemma parse_headers_loop_step (headers : list bytes) (rfile : bytes) :
  parse_headers_loop headers rfile =
  let '(line, rfile') := readline (MAX_LINE + 1) rfile in
  if len line >? MAX_LINE
  then inl (HTTPError 494 (u "Request header too large") None)
  else if is_blank line then inr (headers, rfile')
  else if len (headers ++ [line]) >? MAX_HEADERS
       then inl (HTTPError 494 (u "Too many headers") None)
       else parse_headers_loop (headers ++ [line]) rfile'.
Proof.
  unfold parse_headers_loop. rewrite parse_headers_loop_at_step.
  destruct (readline (MAX_LINE + 1) rfile) as [line rfile'].
  destruct (len line >? MAX_LINE); [reflexivity|].
  destruct (is_blank line); [reflexivity|].
  destruct (len (headers ++ [line]) >? MAX_HEADERS); reflexivity.
Qed.

(** The calls as their callers see them, written out. *)
Lemma parse_request_line_eq (rfile : bytes) :
  parse_request_line rfile =
  let '(raw, rfile') := readline (MAX_LINE + 1) rfile in
  if len raw >? MAX_LINE
  then inl (HTTPError 400 (u "Bad request") (Some (u "Request line is too long")))
  else
    if negb (len (split (decode_latin1 raw)) =? 3)
    then inl (HTTPError 400 (u "Bad request") (Some (u "Malformed request line")))
    else
      match split (decode_latin1 raw) with
      | [method; target; ver] =>
          if str_eq_dec ver (u "HTTP/1.1")
          then inr (method, target, ver, rfile')
          else inl (HTTPError 505 (u "HTTP Version Not Supported") None)
      | _ => inl ValueError
      end.
Proof.
  unfold parse_request_line, parse_request_line_at.
  destruct (readline (MAX_LINE + 1) rfile) as [raw rfile'].
  destruct (len raw >? MAX_LINE); [reflexivity|].
  destruct (negb (len (split (decode_latin1 raw)) =? 3)); [reflexivity|].
  destruct (split (decode_latin1 raw)) as [|a [|b [|c [|d l]]]];
    try reflexivity.
  destruct (str_eq_dec c (u "HTTP/1.1")); reflexivity.
Qed.

Lemma parse_headers_eq `{runtime} (rfile : bytes) :
  parse_headers rfile =
  match parse_headers_loop [] rfile with
  | inl e => inl e
  | inr (headers, rfile') =>
      match email.parsestr (decode_latin1 (concat headers)) with
      | inl e => inl e
      | inr msg => inr (msg, rfile')
      end
  end.
Proof.
  unfold parse_headers, parse_headers_at, parse_headers_loop.
  destruct (parse_headers_loop_at [] rfile) as [[e|headers] rfile'];
    [reflexivity|].
  destruct (email.parsestr (decode_latin1 (concat headers))); reflexivity.
Qed.


Lemma len_nonneg {A : Type} (l : list A) : 0 <= len l.
Proof. unfold len; lia. Qed.

Lemma len_cons {A : Type} (a : A) (l : list A) : len (a :: l) = 1 + len l.
Proof. unfold len; simpl length; lia. Qed.

Lemma len_app {A : Type} (l1 l2 : list A) : len (l1 ++ l2) = len l1 + len l2.
Proof. unfold len; rewrite length_app; lia. Qed.

Lemma len_nil {A : Type} : len (@nil A) = 0.
Proof. reflexivity. Qed.

Lemma gtb_false (n m : Z) : n <= m -> (n >? m) = false.
Proof. rewrite Z.gtb_ltb. apply Z.ltb_ge. Qed.

Lemma gtb_true (n m : Z) : n > m -> (n >? m) = true.
Proof. rewrite Z.gtb_ltb. intros; apply Z.ltb_lt; lia. Qed.

Lemma gtb_false_inv (n m : Z) : (n >? m) = false -> n <= m.
Proof. rewrite Z.gtb_ltb. apply Z.ltb_ge. Qed.

Lemma gtb_true_inv (n m : Z) : (n >? m) = true -> n > m.
Proof. rewrite Z.gtb_ltb. intros H; apply Z.ltb_lt in H; lia. Qed.

(** ** readline *)

Lemma readline_length_le (size : Z) (rfile : bytes) :
  0 <= size -> len (fst (readline size rfile)) <= size.
Proof.
  revert size; induction rfile as [|b rest IH]; intros size Hs; simpl.
  - rewrite len_nil; lia.
  - destruct (size =? 0) eqn:E0; [simpl; rewrite len_nil; lia|].
    apply Z.eqb_neq in E0.
    destruct (Byte.eqb b LF).
    + simpl; rewrite len_cons, len_nil; lia.
    + specialize (IH (size - 1) ltac:(lia)).
      destruct (readline (size - 1) rest) as [line rest']; simpl in *.
      rewrite len_cons; lia.
Qed.

Lemma readline_is_line (size : Z) (l rest : bytes) :
  is_line l = true -> len l <= size ->
  readline size (l ++ rest) = (l, rest).
Proof.
  revert size; induction l as [|b l IH]; intros size Hl Hs; [discriminate|].
  rewrite len_cons in Hs. pose proof (len_nonneg l) as Hn.
  simpl in Hl |- *.
  destruct (size =? 0) eqn:E0; [apply Z.eqb_eq in E0; lia|].
  destruct (Byte.eqb b LF).
  - destruct l; [reflexivity|discriminate].
  - rewrite (IH (size - 1) Hl ltac:(lia)). reflexivity.
Qed.

Lemma readline_bounded (neg size : Z) (rfile : bytes) :
  neg < 0 -> 0 <= size ->
  len (fst (readline size rfile))
  = Z.min size (len (fst (readline neg rfile))).
Proof.
  revert neg size; induction rfile as [|b rest IH]; intros neg size Hn Hs.
  - simpl. rewrite len_nil; lia.
  - cbn [readline].
    destruct (neg =? 0) eqn:En; [apply Z.eqb_eq in En; lia|].
    destruct (size =? 0) eqn:E0.
    + apply Z.eqb_eq in E0. cbn [fst]. rewrite len_nil.
      match goal with |- _ = Z.min _ (len ?l) => pose proof (len_nonneg l) end.
      lia.
    + apply Z.eqb_neq in E0.
      destruct (Byte.eqb b LF).
      * cbn [fst]. rewrite len_cons, len_nil. lia.
      * specialize (IH (neg - 1) (size - 1) ltac:(lia) ltac:(lia)).
        destruct (readline (size - 1) rest) as [line rest'].
        destruct (readline (neg - 1) rest) as [line2 rest2].
        cbn [fst] in *. rewrite !len_cons. lia.
Qed.

Lemma readline_long (rfile : bytes) :
  len (first_line rfile) > MAX_LINE ->
  len (fst (readline (MAX_LINE + 1) rfile)) > MAX_LINE.
Proof.
  unfold first_line; intros H.
  rewrite (readline_bounded (neg := -1)) by (unfold MAX_LINE; lia).
  lia.
Qed.

(** ** split *)

Lemma split_from_token (token cur s : str) :
  forallb (fun c => negb (isspace c)) token = true ->
  split_from cur (token ++ s) = split_from (cur ++ token) s.
Proof.
  revert cur; induction token as [|c token IH]; intros cur H; simpl.
  - now rewrite app_nil_r.
  - simpl in H. apply andb_prop in H as [Hc Ht].
    apply negb_true_iff in Hc. rewrite Hc.
    rewrite IH by assumption. now rewrite <- app_assoc.
Qed.

Lemma split_from_space (gap s : str) :
  forallb isspace gap = true ->
  split_from [] (gap ++ s) = split_from [] s.
Proof.
  induction gap as [|c gap IH]; intros H; simpl; [reflexivity|].
  simpl in H. apply andb_prop in H as [Hc Hg]. rewrite Hc. auto.
Qed.

Lemma split_from_gap (cur gap s : str) :
  cur <> [] -> is_gap gap = true ->
  split_from cur (gap ++ s) = cur :: split_from [] s.
Proof.
  intros Hcur H. destruct gap as [|c gap]; [discriminate|].
  simpl in H. apply andb_prop in H as [Hc Hg].
  simpl. rewrite Hc. destruct cur; [congruence|].
  f_equal. now apply split_from_space.
Qed.

Lemma is_token_nonempty (s : str) : is_token s = true -> s <> [].
Proof. destruct s; [discriminate|congruence]. Qed.

Lemma is_token_forallb (s : str) :
  is_token s = true -> forallb (fun c => negb (isspace c)) s = true.
Proof. destruct s; [discriminate|auto]. Qed.

Lemma split_item (token gap s : str) :
  is_token token = true -> is_gap gap = true ->
  split_from [] (token ++ gap ++ s) = token :: split_from [] s.
Proof.
  intros Ht Hg.
  rewrite split_from_token by now apply is_token_forallb.
  simpl. apply split_from_gap; [now apply is_token_nonempty|assumption].
Qed.

(** The words of a line of tokens and gaps are its tokens, whatever the
    gaps are and whatever whitespace comes first; [last] is a token that
    the end of the line cuts short of a gap, or nothing. *)
Lemma split_spaced (lead : str) (items : list (str * str)) (last : str) :
  forallb isspace lead = true ->
  forallb is_item items = true ->
  forallb (fun c => negb (isspace c)) last = true ->
  split (lead ++ spaced items ++ last)
  = map fst items ++ match last with [] => [] | _ => [last] end.
Proof.
  intros Hlead Hitems Hlast. unfold split.
  rewrite split_from_space by assumption. clear lead Hlead.
  induction items as [|[token gap] items IH]; simpl.
  - rewrite <- (app_nil_r last) at 1.
    rewrite split_from_token by assumption. simpl.
    destruct last; reflexivity.
  - simpl in Hitems. apply andb_prop in Hitems as [Hitem Hitems].
    unfold is_item in Hitem; simpl in Hitem.
    apply andb_prop in Hitem as [Ht Hg].
    rewrite <- !app_assoc. rewrite split_item by assumption.
    f_equal. auto.
Qed.

(** ** The header loop *)

Lemma MAX_LINE_pos : 2 <= MAX_LINE.
Proof. unfold MAX_LINE; lia. Qed.

Lemma parse_headers_loop_cons (acc : list bytes) (h rest : bytes) :
  is_header_line h = true ->
  parse_headers_loop acc (h ++ rest)
  = if len (acc ++ [h]) >? MAX_HEADERS
    then inl (HTTPError 494 (u "Too many headers") None)
    else parse_headers_loop (acc ++ [h]) rest.
Proof.
  unfold is_header_line; intros H.
  apply andb_prop in H as [H Hlen]. apply andb_prop in H as [Hline Hblank].
  apply Z.leb_le in Hlen. apply negb_true_iff in Hblank.
  rewrite parse_headers_loop_step.
  rewrite readline_is_line by (assumption || lia).
  replace (len h >? MAX_LINE) with false by (symmetry; apply gtb_false; lia).
  now rewrite Hblank.
Qed.

Lemma parse_headers_loop_end (acc : list bytes) (tail body : bytes) :
  body_after tail = Some body ->
  parse_headers_loop acc tail = inr (acc, body).
Proof.
  intros H. pose proof MAX_LINE_pos as Hpos.
  rewrite parse_headers_loop_step.
  destruct tail as [|b tail]; simpl in H.
  - injection H as <-. reflexivity.
  - destruct (Byte.eqb b LF) eqn:Eb.
    + injection H as <-. apply Byte.byte_dec_bl in Eb; subst b.
      change (LF :: tail) with ([LF] ++ tail).
      rewrite readline_is_line by (reflexivity || (rewrite len_cons, len_nil; lia)).
      reflexivity.
    + destruct (Byte.eqb b CR) eqn:Ec; [|discriminate].
      destruct tail as [|b' tail]; [discriminate|].
      destruct (Byte.eqb b' LF) eqn:Eb'; [|discriminate].
      injection H as <-.
      apply Byte.byte_dec_bl in Ec, Eb'; subst b b'.
      change (CR :: LF :: tail) with (CRLF ++ tail).
      rewrite readline_is_line
        by (reflexivity || (unfold CRLF; rewrite !len_cons, len_nil; lia)).
      reflexivity.
Qed.

Lemma parse_headers_loop_lines (hdrs acc : list bytes) (tail body : bytes) :
  forallb is_header_line hdrs = true ->
  len acc + len hdrs <= MAX_HEADERS ->
  body_after tail = Some body ->
  parse_headers_loop acc (concat hdrs ++ tail) = inr (acc ++ hdrs, body).
Proof.
  revert acc; induction hdrs as [|h hdrs IH]; intros acc Hh Hn Hb.
  - simpl. rewrite app_nil_r. now apply parse_headers_loop_end.
  - simpl in Hh. apply andb_prop in Hh as [Hh Hhs].
    rewrite len_cons in Hn. pose proof (len_nonneg hdrs).
    simpl concat. rewrite <- app_assoc.
    rewrite parse_headers_loop_cons by assumption.
    replace (len (acc ++ [h]) >? MAX_HEADERS) with false
      by (symmetry; apply gtb_false;
          rewrite len_app, len_cons, len_nil; lia).
    rewrite IH; try assumption.
    + now rewrite <- app_assoc.
    + rewrite len_app, len_cons, len_nil; lia.
Qed.

Lemma parse_headers_loop_many (hdrs acc : list bytes) (tail : bytes) :
  forallb is_header_line hdrs = true ->
  len acc <= MAX_HEADERS ->
  len acc + len hdrs > MAX_HEADERS ->
  parse_headers_loop acc (concat hdrs ++ tail)
  = inl (HTTPError 494 (u "Too many headers") None).
Proof.
  revert acc; induction hdrs as [|h hdrs IH]; intros acc Hh Ha Hn.
  - rewrite len_nil in Hn; lia.
  - simpl in Hh. apply andb_prop in Hh as [Hh Hhs].
    rewrite len_cons in Hn.
    simpl concat. rewrite <- app_assoc.
    rewrite parse_headers_loop_cons by assumption.
    destruct (len (acc ++ [h]) >? MAX_HEADERS) eqn:E; [reflexivity|].
    apply gtb_false_inv in E.
    rewrite len_app, len_cons, len_nil in E.
    apply IH; try assumption; rewrite len_app, len_cons, len_nil; lia.
Qed.

Lemma parse_headers_loop_long (hdrs acc : list bytes) (tail : bytes) :
  forallb is_header_line hdrs = true ->
  len acc + len hdrs <= MAX_HEADERS ->
  len (first_line tail) > MAX_LINE ->
  parse_headers_loop acc (concat hdrs ++ tail)
  = inl (HTTPError 494 (u "Request header too large") None).
Proof.
  revert acc; induction hdrs as [|h hdrs IH]; intros acc Hh Hn Hl.
  - simpl. rewrite parse_headers_loop_step.
    apply readline_long in Hl.
    destruct (readline (MAX_LINE + 1) tail) as [line rest]; simpl in Hl.
    replace (len line >? MAX_LINE) with true
      by (symmetry; apply gtb_true; lia).
    reflexivity.
  - simpl in Hh. apply andb_prop in Hh as [Hh Hhs].
    rewrite len_cons in Hn. pose proof (len_nonneg hdrs).
    simpl concat. rewrite <- app_assoc.
    rewrite parse_headers_loop_cons by assumption.
    replace (len (acc ++ [h]) >? MAX_HEADERS) with false
      by (symmetry; apply gtb_false;
          rewrite len_app, len_cons, len_nil; lia).
    apply IH; try assumption.
    rewrite len_app, len_cons, len_nil; lia.
Qed.

(** The list the loop returns never holds more than [MAX_HEADERS] lines,
    and every line in it beyond the ones it started from is a non-blank
    line of at most [MAX_LINE] bytes. *)
Lemma parse_headers_loop_bound (acc : list bytes) (rfile : bytes)
  (headers : list bytes) (rfile' : bytes) :
  len acc <= MAX_HEADERS ->
  parse_headers_loop acc rfile = inr (headers, rfile') ->
  len headers <= MAX_HEADERS
  /\ exists lines, headers = acc ++ lines
     /\ Forall (fun l => len l <= MAX_LINE /\ is_blank l = false) lines.
Proof.
  remember (length rfile) as n eqn:Hn.
  revert acc rfile Hn; induction n as [n IH] using lt_wf_ind.
  intros acc rfile Hn Hacc Hrun.
  rewrite parse_headers_loop_step in Hrun.
  destruct (readline (MAX_LINE + 1) rfile) as [line rest] eqn:Hread.
  destruct (len line >? MAX_LINE) eqn:Elen; [discriminate|].
  destruct (is_blank line) eqn:Eblank.
  - injection Hrun as <- <-. split; [assumption|].
    exists []. now rewrite app_nil_r.
  - destruct (len (acc ++ [line]) >? MAX_HEADERS) eqn:Ecount; [discriminate|].
    apply gtb_false_inv in Ecount.
    apply gtb_false_inv in Elen.
    pose proof (readline_shorter _ _ Hread Eblank) as Hshort.
    destruct (IH (length rest) ltac:(lia) (acc ++ [line]) rest eq_refl
                Ecount Hrun) as [Hle [lines [-> Hall]]].
    split; [assumption|].
    exists (line :: lines). rewrite <- app_assoc. split; [reflexivity|].
    constructor; auto.
Qed.

(** * Header names and the content type *)

Lemma lower_char_ascii (c x : N) :
  (x < 128)%N -> email.lower_char c = x <-> ascii_lower_char c = x.
Proof.
  intros Hx. unfold email.lower_char, ascii_lower_char.
  destruct (65 <=? c)%N eqn:E1, (c <=? 90)%N eqn:E2, (192 <=? c)%N eqn:E3,
    (c <=? 222)%N eqn:E4, (c =? 215)%N eqn:E5; cbn [andb orb negb];
    rewrite ?N.leb_le, ?N.leb_gt, ?N.eqb_eq, ?N.eqb_neq in *;
    split; intros; lia.
Qed.

Lemma lower_ascii (k target : str) :
  Forall (fun x => (x < 128)%N) target ->
  email.lower k = target <-> map ascii_lower_char k = target.
Proof.
  intros Ht; revert k; induction Ht as [|x target Hx _ IH]; intros k.
  - destruct k; simpl; split; intros H; congruence.
  - destruct k as [|c k]; simpl; [split; discriminate|].
    specialize (IH k). pose proof (lower_char_ascii c Hx) as Hc.
    unfold email.lower in IH.
    split; intros H; injection H as H1 H2; f_equal; tauto.
Qed.

Lemma get_Host (headers : email.Message) :
  email.get headers (u "Host")
  = option_map snd (first_named (u "Host") headers).
Proof.
  induction headers as [|[k v] headers IH]; [reflexivity|].
  unfold first_named in *. cbn [email.get find fst].
  unfold same_name.
  assert (Hiff : email.lower k = email.lower (u "Host")
                 <-> map ascii_lower_char k = map ascii_lower_char (u "Host")).
  { change (email.lower (u "Host")) with (u "host").
    change (map ascii_lower_char (u "Host")) with (u "host").
    apply lower_ascii. repeat constructor. }
  destruct (str_eq_dec (email.lower k) (email.lower (u "Host"))) as [E|E],
    (str_eq_dec (map ascii_lower_char k) (map ascii_lower_char (u "Host")))
      as [F|F]; first [tauto | reflexivity | exact IH].
Qed.

Lemma get_first_named (headers : email.Message) (name name' : str) :
  Forall (fun x => (x < 128)%N) (email.lower name) ->
  email.lower name = map ascii_lower_char name' ->
  email.get headers name = option_map snd (first_named name' headers).
Proof.
  intros Hascii Hname.
  induction headers as [|[k v] headers IH]; [reflexivity|].
  unfold first_named in *. cbn [email.get find fst].
  unfold same_name.
  assert (Hiff : email.lower k = email.lower name
                 <-> map ascii_lower_char k = map ascii_lower_char name')
    by (rewrite <- Hname; apply lower_ascii; assumption).
  destruct (str_eq_dec (email.lower k) (email.lower name)) as [E|E],
    (str_eq_dec (map ascii_lower_char k) (map ascii_lower_char name'))
      as [F|F];
    first [tauto | reflexivity | exact IH].
Qed.

Lemma lower_char_slash (c : N) : (email.lower_char c =? 47)%N = (c =? 47)%N.
Proof.
  pose proof (@lower_char_ascii c 47%N eq_refl) as H.
  assert (Ha : ascii_lower_char c = 47%N <-> c = 47%N).
  { unfold ascii_lower_char.
    destruct (65 <=? c)%N eqn:E1, (c <=? 90)%N eqn:E2; cbn [andb];
      rewrite ?N.leb_le, ?N.leb_gt in *; split; intros; lia. }
  destruct (email.lower_char c =? 47)%N eqn:E, (c =? 47)%N eqn:F;
    rewrite ?N.eqb_eq, ?N.eqb_neq in *; try reflexivity; tauto.
Qed.

Lemma count_lower (s : str) : email.count 47 (email.lower s) = email.count 47 s.
Proof.
  unfold email.count, email.lower.
  induction s as [|c s IH]; [reflexivity|]. cbn [map filter].
  rewrite (N.eqb_sym 47 (email.lower_char c)), lower_char_slash,
    (N.eqb_sym c 47).
  destruct (47 =? c)%N; cbn [length]; now rewrite IH.
Qed.

Lemma before_lower (s : str) :
  email.before 47 (email.lower s) = email.lower (email.before 47 s).
Proof.
  unfold email.lower.
  induction s as [|c s IH]; [reflexivity|]. cbn [map email.before].
  rewrite lower_char_slash.
  destruct (c =? 47)%N; [reflexivity|]. cbn [map]. now rewrite IH.
Qed.

Lemma lower_same_name (s : str) (target : str) :
  Forall (fun x => (x < 128)%N) target ->
  map ascii_lower_char target = target ->
  email.lower s = target -> same_name s target = true.
Proof.
  intros Hascii Hlow H. apply (lower_ascii s Hascii) in H.
  unfold same_name. rewrite H, Hlow.
  destruct (str_eq_dec target target); [reflexivity|contradiction].
Qed.

(** A header block that is no container has a main content type other
    than [message] and [multipart]: the parser takes the rest of the text
    as the payload and returns. *)
Lemma plain_maintype (headers : email.Message) :
  is_container headers = false ->
  email.get_content_maintype headers <> u "message"
  /\ email.get_content_maintype headers <> u "multipart".
Proof.
  unfold is_container, email.get_content_maintype, email.get_content_type.
  rewrite (@get_first_named headers (u "content-type") (u "Content-Type"))
    by (try reflexivity; vm_compute; repeat constructor).
  destruct (first_named (u "Content-Type") headers) as [[k value]|];
    cbn [option_map snd]; [|intros _; split; vm_compute; discriminate].
  set (s := email.strip (email.before 59 value)).
  rewrite count_lower.
  destruct (email.count 47 s =? 1)%nat;
    [|intros _; split; vm_compute; discriminate].
  cbn [andb]. rewrite before_lower. intros Hc.
  apply orb_false_elim in Hc as [Hm Hp].
  split; intros E.
  - apply lower_same_name in E;
      [congruence|vm_compute; repeat constructor|reflexivity].
  - apply lower_same_name in E;
      [congruence|vm_compute; repeat constructor|reflexivity].
Qed.

Lemma parsestr_plain `{runtime} (text : str) :
  is_container (email.header_block text) = false ->
  email.parsestr text = inr (email.header_block text).
Proof.
  intros Hc. apply plain_maintype in Hc as [Hm Hp].
  unfold email.parsestr.
  destruct (str_eq_dec (email.get_content_maintype (email.header_block text))
              (u "message")); [contradiction|].
  destruct (str_eq_dec (email.get_content_maintype (email.header_block text))
              (u "multipart")); [contradiction|].
  reflexivity.
Qed.

(** Whatever the parser raises, it is no [HTTPError]. *)
Lemma parsestr_of_library `{runtime} (text : str) (e : exn) :
  email.parsestr text = inl e -> of_library e = true.
Proof.
  unfold email.parsestr.
  destruct (str_eq_dec _ _);
    [|destruct (str_eq_dec _ _); [|discriminate]];
    destruct (mime_error text) as [e'|] eqn:E; try discriminate;
    intros H0; injection H0 as <-; eapply mime_error_of_library; eauto.
Qed.

(** * Parsing a well-formed request *)




(** * Serializing a response *)

Lemma format_fits (value : obj) :
  fits value = true -> format value = inr (text_of value).
Proof.
  destruct value as [s|n]; [reflexivity|]. cbn [fits format text_of].
  intros H. apply Z.leb_le in H. now rewrite gtb_false.
Qed.

Lemma format_unfit (value : obj) :
  fits value = false -> format value = inl ValueError.
Proof.
  destruct value as [s|n]; [discriminate|]. cbn [fits format].
  intros H. apply Z.leb_gt in H. rewrite gtb_true by lia. reflexivity.
Qed.

Lemma write_headers_all (headers : list (str * obj)) (hlines : list bytes)
  (wfile : bytes) :
  Forall2 (fun h data => encode_line (header_line h) = inr data)
    headers hlines ->
  write_headers wfile headers = inr (wfile ++ concat hlines).
Proof.
  intros H; revert wfile; induction H as [|h data headers hlines Hh _ IH];
    intros wfile; simpl.
  - now rewrite app_nil_r.
  - rewrite Hh, IH. unfold write. now rewrite <- app_assoc.
Qed.

(** C2.  [send_response] writes the status line
    ["HTTP/1.1 {status} {reason}\r\n"], then one line
    ["{name}: {value}\r\n"] for each header pair, in the order of the
    list and with nothing left out, merged or added, then ["\r\n"], then
    the body as it is; each line is the ISO-8859-1 encoding of its text,
    and the status and the integer values are numbers that the
    interpreter converts to text, of at most 4300 digits.  For status 200,
    reason "OK", the one header ("Content-Length", "5") and body "hello"
    the bytes are ["HTTP/1.1 200 OK\r\nContent-Length: 5\r\n\r\nhello"]. *)
Theorem send_response_serializes :
  (forall (resp : Response.t) (line : bytes) (hlines : list bytes),
      fits (Int (Response.status resp)) = true ->
      encode_latin1
        (u "HTTP/1.1 " ++ str_of_int (Response.status resp) ++ u " "
           ++ Response.reason resp ++ crlf) = Some line ->
      Forall2
        (fun h data =>
           fits (snd h) = true
           /\ encode_latin1 (fst h ++ u ": " ++ text_of (snd h) ++ crlf)
              = Some data)
        (match Response.headers resp with Some hs => hs | None => [] end)
        hlines ->
      send_response resp
      = inr (line ++ concat hlines ++ CRLF
               ++ match Response.body resp with Some b => b | None => [] end))
  /\ send_response
       (Response.mk 200 (u "OK") (Some [(u "Content-Length", Str (u "5"))])
          (Some (b_ "hello")))
     = inr (b_ "HTTP/1.1 200 OK" ++ CRLF ++ b_ "Content-Length: 5" ++ CRLF
              ++ CRLF ++ b_ "hello").
Proof.
  split; [|vm_compute; reflexivity].
  intros [status reason headers body] line hlines Hfit Hline Hh;
    cbn [Response.status Response.reason Response.headers Response.body]
      in *.
  assert (Hh' : Forall2
                  (fun h data => encode_line (header_line h) = inr data)
                  (match headers with Some hs => hs | None => [] end) hlines).
  { eapply Forall2_impl; [|exact Hh]. intros [k v] data [Hv Hd].
    cbn [fst snd] in *. unfold header_line, encode_line.
    now rewrite (format_fits _ Hv), Hd. }
  unfold send_response, status_line, encode_line.
  cbn [Response.status Response.reason Response.headers Response.body].
  rewrite (format_fits (Int status) Hfit). cbn [text_of].
  rewrite Hline. cbv zeta. change (write [] line) with line.
  assert (Hw : match headers with
               | Some ((_ :: _) as hs) => write_headers line hs
               | _ => inr line
               end = inr (line ++ concat hlines)).
  { destruct headers as [[|h hs]|].
    - inversion Hh'; subst. now rewrite app_nil_r.
    - now apply write_headers_all.
    - inversion Hh'; subst. now rewrite app_nil_r. }
  rewrite Hw. unfold write.
  destruct body as [[|b body]|]; rewrite <- ?app_assoc, ?app_nil_r;
    reflexivity.
Qed.

Lemma send_response_serializes_witness :
  send_response
    (Response.mk 404 (u "Not Found")
       (Some [(u "A", Str (u "1")); (u "B", Int 2); (u "A", Str (u "1"))])
       None)
  = inr (b_ "HTTP/1.1 404 Not Found" ++ CRLF
           ++ concat [b_ "A: 1" ++ CRLF; b_ "B: 2" ++ CRLF; b_ "A: 1" ++ CRLF]
           ++ CRLF ++ []).
Proof.
  apply (proj1 send_response_serializes
           (Response.mk 404 (u "Not Found")
              (Some [(u "A", Str (u "1")); (u "B", Int 2);
                     (u "A", Str (u "1"))])
              None)
           (b_ "HTTP/1.1 404 Not Found" ++ CRLF)
           [b_ "A: 1" ++ CRLF; b_ "B: 2" ++ CRLF; b_ "A: 1" ++ CRLF]).
  - reflexivity.
  - reflexivity.
  - repeat constructor.
Defined.

(** * What a parsed request satisfies *)

Lemma parse_request_line_inr (conn : bytes) (m t v : str) (rest : bytes) :
  parse_request_line conn = inr (m, t, v, rest) ->
  readline (MAX_LINE + 1) conn = (fst (readline (MAX_LINE + 1) conn), rest)
  /\ len (fst (readline (MAX_LINE + 1) conn)) <= MAX_LINE
  /\ split (decode_latin1 (fst (readline (MAX_LINE + 1) conn))) = [m; t; v]
  /\ v = u "HTTP/1.1".
Proof.
  rewrite parse_request_line_eq.
  destruct (readline (MAX_LINE + 1) conn) as [raw rest0]; cbn [fst].
  destruct (len raw >? MAX_LINE) eqn:E; [discriminate|].
  apply gtb_false_inv in E.
  destruct (negb (len (split (decode_latin1 raw)) =? 3)); [discriminate|].
  destruct (split (decode_latin1 raw)) as [|a [|b [|c [|d l]]]];
    try discriminate.
  destruct (str_eq_dec c (u "HTTP/1.1")) as [Hc|]; [|discriminate].
  intros H; injection H as <- <- <- <-. auto.
Qed.

Lemma parse_request_line_version (conn raw rest : bytes) (m t v : str) :
  readline (MAX_LINE + 1) conn = (raw, rest) ->
  len raw <= MAX_LINE ->
  split (decode_latin1 raw) = [m; t; v] ->
  parse_request_line conn
  = if str_eq_dec v (u "HTTP/1.1") then inr (m, t, v, rest)
    else inl (HTTPError 505 (u "HTTP Version Not Supported") None).
Proof.
  intros Hread Hlen Hsplit. rewrite parse_request_line_eq.
  rewrite Hread, gtb_false by assumption. rewrite Hsplit. reflexivity.
Qed.

Section Worker.

Context {rt : runtime}.
Variable describe : exn -> str.
Variable handle_request : Request.t -> result Response.t.

(** A request that fails to parse with an [HTTPError] is answered from
    the error alone; [handle_request] does not occur in the events. *)
Lemma serve_client_parse_error (th : thread) (conn : bytes) (self : server)
  (status : Z) (reason : str) (body : option str) (resp : Response.t)
  (out : bytes) :
  parse_request conn = inl (HTTPError status reason body) ->
  error_response describe (HTTPError status reason body) = inr resp ->
  send_response resp = inr out ->
  serve_client describe handle_request th conn self
  = let '(last, ending, self') := remove_current_thread th self in
    (Send resp :: CloseConn :: last, ending, self').
Proof.
  intros Hparse Herr Hsend.
  unfold serve_client, serve_client_try.
  rewrite Hparse, Herr, Hsend.
  destruct (remove_current_thread th self) as [[last ending] self'].
  reflexivity.
Qed.

End Worker.

(** C3.  A request that [parse_request] returns has version ["HTTP/1.1"]
    and a Host header with a non-empty value.  When the request line has
    three words and the third is not ["HTTP/1.1"], parsing fails with
    status 505; when the request line and the header block are read and
    the Host header is absent or has an empty value, parsing fails with
    status 400.  In both cases the worker answers from the error and
    [handle_request] is never called: the worker sends the response of
    the error, closes the connection and goes on to lines 108 to 110,
    whatever the state of the server. *)
Theorem request_invariants {rt : runtime} :
  (forall (conn : bytes) (req : Request.t),
      parse_request conn = inr req ->
      Request.version req = u "HTTP/1.1"
      /\ exists host,
           email.get (Request.headers req) (u "Host") = Some host
           /\ host <> [])
  /\ (forall (conn raw rest : bytes) (m t v : str),
         readline (MAX_LINE + 1) conn = (raw, rest) ->
         len raw <= MAX_LINE ->
         split (decode_latin1 raw) = [m; t; v] ->
         v <> u "HTTP/1.1" ->
         parse_request conn
         = inl (HTTPError 505 (u "HTTP Version Not Supported") None)
         /\ forall describe handle_request th self,
              serve_client describe handle_request th conn self
              = let '(last, ending, self') :=
                  remove_current_thread th self in
                (Send (Response.mk 505 (u "HTTP Version Not Supported")
                         (Some [(u "Content-Length", Int 26)])
                         (Some (b_ "HTTP Version Not Supported")))
                   :: CloseConn :: last, ending, self'))
  /\ (forall (conn rest rest' : bytes) (m t v : str)
             (headers : email.Message),
         parse_request_line conn = inr (m, t, v, rest) ->
         parse_headers rest = inr (headers, rest') ->
         email.get headers (u "Host") = None
         \/ email.get headers (u "Host") = Some [] ->
         parse_request conn
         = inl (HTTPError 400 (u "Bad request")
                  (Some (u "Host header is missing")))
         /\ forall describe handle_request th self,
              serve_client describe handle_request th conn self
              = let '(last, ending, self') :=
                  remove_current_thread th self in
                (Send (Response.mk 400 (u "Bad request")
                         (Some [(u "Content-Length", Int 22)])
                         (Some (b_ "Host header is missing")))
                   :: CloseConn :: last, ending, self')).
Proof.
  split; [|split].
  - intros conn req. unfold parse_request.
    destruct (parse_request_line conn) as [e|[[[m t] v] rest]] eqn:Hline;
      [discriminate|].
    apply parse_request_line_inr in Hline as (_ & _ & _ & Hv).
    destruct (parse_headers rest) as [e|[headers rest']]; [discriminate|].
    destruct (email.get headers (u "Host")) as [[|c host]|] eqn:Hget;
      try discriminate.
    intros H; injection H as <-. simpl. split; [assumption|].
    exists (c :: host). split; [assumption|discriminate].
  - intros conn raw rest m t v Hread Hlen Hsplit Hv.
    assert (Hparse : parse_request conn
                     = inl (HTTPError 505 (u "HTTP Version Not Supported")
                              None)).
    { unfold parse_request.
      rewrite (parse_request_line_version _ Hread Hlen Hsplit).
      destruct (str_eq_dec v (u "HTTP/1.1")); [contradiction|reflexivity]. }
    split; [assumption|].
    intros describe handle_request th self.
    eapply serve_client_parse_error; [exact Hparse| |]; reflexivity.
  - intros conn rest rest' m t v headers Hline Hheaders Hget.
    assert (Hparse : parse_request conn
                     = inl (HTTPError 400 (u "Bad request")
                              (Some (u "Host header is missing")))).
    { unfold parse_request. rewrite Hline, Hheaders.
      destruct Hget as [-> | ->]; reflexivity. }
    split; [assumption|].
    intros describe handle_request th self.
    eapply serve_client_parse_error; [exact Hparse| |]; reflexivity.
Qed.

Lemma request_invariants_witness :
  (Request.version
     (Request.mk (u "GET") (u "/") (u "HTTP/1.1") [(u "Host", u "h")] [])
   = u "HTTP/1.1"
   /\ exists host,
        email.get [(u "Host", u "h")] (u "Host") = Some host /\ host <> [])
  /\ (@parse_request typical
        (b_ "GET / HTTP/1.0" ++ CRLF ++ b_ "Host: h" ++ CRLF ++ CRLF)
      = inl (HTTPError 505 (u "HTTP Version Not Supported") None)
      /\ forall describe handle_request th self,
           @serve_client typical describe handle_request th
             (b_ "GET / HTTP/1.0" ++ CRLF ++ b_ "Host: h" ++ CRLF ++ CRLF)
             self
           = let '(last, ending, self') := remove_current_thread th self in
             (Send (Response.mk 505 (u "HTTP Version Not Supported")
                      (Some [(u "Content-Length", Int 26)])
                      (Some (b_ "HTTP Version Not Supported")))
                :: CloseConn :: last, ending, self'))
  /\ (@parse_request typical
        (b_ "GET / HTTP/1.1" ++ CRLF ++ b_ "Accept: x" ++ CRLF ++ CRLF)
      = inl (HTTPError 400 (u "Bad request")
               (Some (u "Host header is missing")))
      /\ forall describe handle_request th self,
           @serve_client typical describe handle_request th
             (b_ "GET / HTTP/1.1" ++ CRLF ++ b_ "Accept: x" ++ CRLF ++ CRLF)
             self
           = let '(last, ending, self') := remove_current_thread th self in
             (Send (Response.mk 400 (u "Bad request")
                      (Some [(u "Content-Length", Int 22)])
                      (Some (b_ "Host header is missing")))
                :: CloseConn :: last, ending, self')).
Proof.
  split; [|split].
  - apply (proj1 (@request_invariants typical)
             (b_ "GET / HTTP/1.1" ++ CRLF ++ b_ "Host: h" ++ CRLF ++ CRLF)).
    reflexivity.
  - apply (proj1 (proj2 (@request_invariants typical))) with
      (raw := b_ "GET / HTTP/1.0" ++ CRLF)
      (rest := b_ "Host: h" ++ CRLF ++ CRLF)
      (m := u "GET") (t := u "/") (v := u "HTTP/1.0").
    + reflexivity.
    + vm_compute; discriminate.
    + reflexivity.
    + vm_compute; discriminate.
  - apply (proj2 (proj2 (@request_invariants typical))) with
      (rest := b_ "Accept: x" ++ CRLF ++ CRLF) (rest' := [])
      (m := u "GET") (t := u "/") (v := u "HTTP/1.1")
      (headers := [(u "Accept", u "x")]).
    + reflexivity.
    + reflexivity.
    + left; reflexivity.
Defined.

(** * Limits *)

(** C4.  A stream whose first line is longer than [MAX_LINE] bytes fails
    with status 400 and the text "Request line is too long".  After an
    accepted request line, a line longer than [MAX_LINE] bytes that comes
    after at most [MAX_HEADERS] header lines fails with status 494
    "Request header too large", and more than [MAX_HEADERS] header lines
    fail with status 494 "Too many headers".  A block of exactly
    [MAX_HEADERS] header lines is accepted: the loop of [parse_headers]
    ends with all of its lines, [parse_headers] raises no [HTTPError] for
    it, and returns the parsed block whenever the block does not announce
    a body of main type message or multipart, which the parser of the
    standard library would go on to parse. *)
Theorem limits_enforced {rt : runtime} :
  (forall conn : bytes,
      len (first_line conn) > MAX_LINE ->
      parse_request conn
      = inl (HTTPError 400 (u "Bad request")
               (Some (u "Request line is too long"))))
  /\ (forall (conn : bytes) (m t v : str) (hdrs : list bytes) (tail : bytes),
         parse_request_line conn = inr (m, t, v, concat hdrs ++ tail) ->
         forallb is_header_line hdrs = true ->
         len hdrs <= MAX_HEADERS ->
         len (first_line tail) > MAX_LINE ->
         parse_request conn
         = inl (HTTPError 494 (u "Request header too large") None))
  /\ (forall (conn : bytes) (m t v : str) (hdrs : list bytes) (tail : bytes),
         parse_request_line conn = inr (m, t, v, concat hdrs ++ tail) ->
         forallb is_header_line hdrs = true ->
         len hdrs > MAX_HEADERS ->
         parse_request conn = inl (HTTPError 494 (u "Too many headers") None))
  /\ (forall (hdrs : list bytes) (tail body : bytes),
         forallb is_header_line hdrs = true ->
         len hdrs = MAX_HEADERS ->
         body_after tail = Some body ->
         parse_headers_loop [] (concat hdrs ++ tail) = inr (hdrs, body)
         /\ (forall status reason text,
                parse_headers (concat hdrs ++ tail)
                <> inl (HTTPError status reason text))
         /\ (is_container (email.header_block (decode_latin1 (concat hdrs)))
             = false ->
             parse_headers (concat hdrs ++ tail)
             = inr (email.header_block (decode_latin1 (concat hdrs)),
                    body))).
Proof.
  split; [|split; [|split]].
  - intros conn Hlong. apply readline_long in Hlong.
    unfold parse_request. rewrite parse_request_line_eq.
    destruct (readline (MAX_LINE + 1) conn) as [raw rest]; cbn [fst] in Hlong.
    now rewrite gtb_true by assumption.
  - intros conn m t v hdrs tail Hline Hh Hn Hlong.
    unfold parse_request. rewrite Hline, parse_headers_eq.
    rewrite parse_headers_loop_long
      by (assumption || (rewrite len_nil; lia)).
    reflexivity.
  - intros conn m t v hdrs tail Hline Hh Hn.
    unfold parse_request. rewrite Hline, parse_headers_eq.
    rewrite parse_headers_loop_many
      by (assumption || (rewrite len_nil; unfold MAX_HEADERS; lia) || lia).
    reflexivity.
  - intros hdrs tail body Hh Hn Hb.
    assert (Hloop : parse_headers_loop [] (concat hdrs ++ tail)
                    = inr (hdrs, body)).
    { rewrite parse_headers_loop_lines with (body := body)
        by (assumption || (rewrite len_nil; lia)).
      reflexivity. }
    split; [assumption|]. split.
    + intros status reason text. rewrite parse_headers_eq, Hloop.
      destruct (email.parsestr (decode_latin1 (concat hdrs))) as [e|msg]
        eqn:E; [|discriminate].
      apply parsestr_of_library in E. intros H; injection H as ->.
      discriminate E.
    + intros Hplain. rewrite parse_headers_eq, Hloop.
      now rewrite parsestr_plain.
Qed.

Lemma limits_enforced_witness :
  @parse_request typical (repeat x61 (Z.to_nat 65537))
  = inl (HTTPError 400 (u "Bad request") (Some (u "Request line is too long")))
  /\ @parse_request typical
       (b_ "GET / HTTP/1.1" ++ CRLF
          ++ concat [b_ "Host: h" ++ CRLF] ++ repeat x61 (Z.to_nat 65537))
     = inl (HTTPError 494 (u "Request header too large") None)
  /\ @parse_request typical
       (b_ "GET / HTTP/1.1" ++ CRLF
          ++ concat (repeat (b_ "A: b" ++ CRLF) 101) ++ CRLF)
     = inl (HTTPError 494 (u "Too many headers") None)
  /\ parse_headers_loop [] (concat (repeat (b_ "A: b" ++ CRLF) 100) ++ CRLF)
     = inr (repeat (b_ "A: b" ++ CRLF) 100, [])
  /\ (forall status reason text,
         @parse_headers typical
           (concat (repeat (b_ "A: b" ++ CRLF) 100) ++ CRLF)
         <> inl (HTTPError status reason text))
  /\ (is_container
        (email.header_block
           (decode_latin1 (concat (repeat (b_ "A: b" ++ CRLF) 100))))
      = false ->
      @parse_headers typical
        (concat (repeat (b_ "A: b" ++ CRLF) 100) ++ CRLF)
      = inr (email.header_block
               (decode_latin1 (concat (repeat (b_ "A: b" ++ CRLF) 100))),
             [])).
Proof.
  split; [|split; [|split]].
  - apply (proj1 (@limits_enforced typical)). vm_compute; reflexivity.
  - apply (proj1 (proj2 (@limits_enforced typical))) with
      (m := u "GET") (t := u "/") (v := u "HTTP/1.1")
      (hdrs := [b_ "Host: h" ++ CRLF]) (tail := repeat x61 (Z.to_nat 65537)).
    + reflexivity.
    + reflexivity.
    + vm_compute; discriminate.
    + vm_compute; reflexivity.
  - apply (proj1 (proj2 (proj2 (@limits_enforced typical)))) with
      (m := u "GET") (t := u "/") (v := u "HTTP/1.1")
      (hdrs := repeat (b_ "A: b" ++ CRLF) 101) (tail := CRLF).
    + reflexivity.
    + vm_compute; reflexivity.
    + vm_compute; reflexivity.
  - apply (proj2 (proj2 (proj2 (@limits_enforced typical)))).
    + vm_compute; reflexivity.
    + reflexivity.
    + reflexivity.
Defined.

(** * The body *)

(** C5, the claim as stated fails: with Content-Length 5 and a stream
    that ends after 3 bytes, [body] returns these 3 bytes, not 5, on every
    runtime that can allocate five bytes. *)
Lemma short_stream_counterexample :
  email.get [(u "Host", u "h"); (u "Content-Length", u "5")]
    (u "Content-Length") = Some (u "5")
  /\ int (u "5") = Some 5
  /\ (forall rt : runtime,
         can_allocate 5 = true ->
         Request.body
           (Request.mk (u "PUT") (u "/f") (u "HTTP/1.1")
              [(u "Host", u "h"); (u "Content-Length", u "5")] (b_ "abc"))
         = inr (Some (b_ "abc"),
                Request.mk (u "PUT") (u "/f") (u "HTTP/1.1")
                  [(u "Host", u "h"); (u "Content-Length", u "5")] []))
  /\ len (b_ "abc") <> 5.
Proof.
  split; [reflexivity|]. split; [reflexivity|]. split.
  - intros rt Halloc. cbv - [can_allocate]. rewrite Halloc. reflexivity.
  - vm_compute; discriminate.
Qed.

(** C5, amended.  [body] returns [None], which is not the empty byte
    string, when there is no Content-Length header, and leaves the stream
    as it is.  When the header is there, its value reads as the integer
    [n >= 0], and a buffer of [n] bytes can be allocated ([n] is at most
    [PY_SSIZE_T_MAX - PyBytesObject_SIZE] and the machine has the room;
    for [n = 0] none is needed),
    [body] returns the next [n] bytes of the stream and advances the
    stream past them: exactly [n] bytes when the stream still holds that
    many, and all the bytes that are left when it holds fewer. *)
Theorem body_content_length {rt : runtime} :
  (forall req : Request.t,
      email.get (Request.headers req) (u "Content-Length") = None ->
      Request.body req = inr (None, req))
  /\ (forall (req : Request.t) (size : str) (n : Z),
         email.get (Request.headers req) (u "Content-Length") = Some size ->
         int size = Some n ->
         0 <= n ->
         n <= PY_SSIZE_T_MAX - PyBytesObject_SIZE ->
         n = 0 \/ can_allocate n = true ->
         Request.body req
         = inr (Some (firstn (Z.to_nat n) (Request.rfile req)),
                Request.mk (Request.method req) (Request.target req)
                  (Request.version req) (Request.headers req)
                  (skipn (Z.to_nat n) (Request.rfile req)))
         /\ (n <= len (Request.rfile req) ->
             len (firstn (Z.to_nat n) (Request.rfile req)) = n)
         /\ (len (Request.rfile req) <= n ->
             firstn (Z.to_nat n) (Request.rfile req) = Request.rfile req
             /\ skipn (Z.to_nat n) (Request.rfile req) = [])).
Proof.
  split.
  - intros req Hget. unfold Request.body. now rewrite Hget.
  - intros req size n Hget Hint Hn Hmax Halloc. split; [|split].
    + unfold Request.body. rewrite Hget.
      destruct size as [|c size]; [discriminate Hint|].
      rewrite Hint. unfold read, PY_SSIZE_T_MAX, PyBytesObject_SIZE in *.
      destruct (n <? - (2 ^ 63 - 1) - 1) eqn:E1;
        [apply Z.ltb_lt in E1; lia|].
      destruct (2 ^ 63 - 1 <? n) eqn:E2; [apply Z.ltb_lt in E2; lia|].
      destruct (n <? -1) eqn:E3; [apply Z.ltb_lt in E3; lia|].
      destruct (n =? -1) eqn:E4; [apply Z.eqb_eq in E4; lia|].
      destruct (n =? 0) eqn:E0;
        [apply Z.eqb_eq in E0; subst n; reflexivity|].
      destruct (2 ^ 63 - 1 - 33 <? n) eqn:E5; [apply Z.ltb_lt in E5; lia|].
      destruct Halloc as [Halloc|Halloc];
        [apply Z.eqb_neq in E0; contradiction|].
      now rewrite Halloc.
    + intros Hlen. unfold len in *. rewrite length_firstn. lia.
    + intros Hlen. unfold len in *.
      split; [apply firstn_all2|apply skipn_all2]; lia.
Qed.

Lemma body_content_length_witness :
  @Request.body typical
    (Request.mk (u "PUT") (u "/f") (u "HTTP/1.1")
       [(u "Host", u "h"); (u "content-length", u "3")] (b_ "abcdef"))
  = inr (Some (b_ "abc"),
         Request.mk (u "PUT") (u "/f") (u "HTTP/1.1")
           [(u "Host", u "h"); (u "content-length", u "3")] (b_ "def"))
  /\ @Request.body typical
       (Request.mk (u "GET") (u "/f") (u "HTTP/1.1") [(u "Host", u "h")]
          (b_ "abcdef"))
     = inr (None,
            Request.mk (u "GET") (u "/f") (u "HTTP/1.1") [(u "Host", u "h")]
              (b_ "abcdef")).
Proof.
  split.
  - apply (proj2 (@body_content_length typical)
             (Request.mk (u "PUT") (u "/f") (u "HTTP/1.1")
                [(u "Host", u "h"); (u "content-length", u "3")]
                (b_ "abcdef"))
             (u "3") 3).
    + reflexivity.
    + reflexivity.
    + lia.
    + vm_compute; discriminate.
    + right; reflexivity.
  - apply (proj1 (@body_content_length typical)). reflexivity.
Defined.

(** * A malformed request line *)

Lemma parse_request_malformed `{runtime} (conn : bytes) :
  len (fst (readline (MAX_LINE + 1) conn)) <= MAX_LINE ->
  length (split (decode_latin1 (fst (readline (MAX_LINE + 1) conn)))) <> 3%nat ->
  parse_request conn
  = inl (HTTPError 400 (u "Bad request") (Some (u "Malformed request line"))).
Proof.
  unfold parse_request. rewrite parse_request_line_eq.
  destruct (readline (MAX_LINE + 1) conn) as [raw rest]; cbn [fst].
  intros Hlen Hwords. rewrite gtb_false by assumption.
  replace (len (split (decode_latin1 raw)) =? 3) with false; [reflexivity|].
  symmetry. apply Z.eqb_neq. unfold len. lia.
Qed.

(** C6, the claim as stated fails: the line ["GET /"] has two words and is
    refused with status 400, but the reason phrase of the error, and of
    the response sent for it, is "Bad request"; "Malformed request line"
    is the body text.  This is so on every runtime. *)
Lemma malformed_reason_counterexample :
  len (fst (readline (MAX_LINE + 1) (b_ "GET /" ++ CRLF))) <= MAX_LINE
  /\ length (split (decode_latin1
                      (fst (readline (MAX_LINE + 1) (b_ "GET /" ++ CRLF)))))
     = 2%nat
  /\ (forall rt : runtime,
         ~ (exists status body,
               parse_request (b_ "GET /" ++ CRLF)
               = inl (HTTPError status (u "Malformed request line") body)))
  /\ forall rt : runtime,
     exists resp events,
       serve_client (fun _ => []) (fun _ => inl ValueError) 0%nat
         (b_ "GET /" ++ CRLF) (mk_server [0%nat] false)
       = (Send resp :: events, Returns, mk_server [] false)
       /\ Response.status resp = 400
       /\ Response.reason resp = u "Bad request"
       /\ Response.reason resp <> u "Malformed request line".
Proof.
  split; [vm_compute; discriminate|].
  split; [reflexivity|].
  split.
  - intros rt (status & body & H). vm_compute in H. discriminate H.
  - intros rt. eexists; eexists. split; [vm_compute; reflexivity|].
    split; [reflexivity|]. split; [reflexivity|].
    vm_compute; discriminate.
Qed.

(** C6, amended.  When the request line is within the length limit and
    the number of its whitespace-separated words is not 3, parsing fails
    with status 400, reason phrase "Bad request" and body text
    "Malformed request line"; the worker sends that response, does not
    call [handle_request], closes the connection and goes on to lines 108
    to 110, whatever the state of the server.  The number of words is the
    number of tokens of the line, however much whitespace leads, separates
    or follows them. *)
Theorem malformed_request_line {rt : runtime} :
  (forall conn : bytes,
      len (fst (readline (MAX_LINE + 1) conn)) <= MAX_LINE ->
      length (split (decode_latin1 (fst (readline (MAX_LINE + 1) conn))))
      <> 3%nat ->
      parse_request conn
      = inl (HTTPError 400 (u "Bad request")
               (Some (u "Malformed request line")))
      /\ forall describe handle_request th self,
           serve_client describe handle_request th conn self
           = let '(last, ending, self') := remove_current_thread th self in
             (Send (Response.mk 400 (u "Bad request")
                      (Some [(u "Content-Length", Int 22)])
                      (Some (b_ "Malformed request line")))
                :: CloseConn :: last, ending, self'))
  /\ (forall (conn : bytes) (lead : str) (items : list (str * str))
             (last : str),
         len (fst (readline (MAX_LINE + 1) conn)) <= MAX_LINE ->
         decode_latin1 (fst (readline (MAX_LINE + 1) conn))
         = lead ++ spaced items ++ last ->
         forallb isspace lead = true ->
         forallb is_item items = true ->
         forallb (fun c => negb (isspace c)) last = true ->
         (length items + match last with [] => 0 | _ => 1 end <> 3)%nat ->
         parse_request conn
         = inl (HTTPError 400 (u "Bad request")
                  (Some (u "Malformed request line")))).
Proof.
  split.
  - intros conn Hlen Hwords.
    pose proof (parse_request_malformed conn Hlen Hwords) as Hparse.
    split; [assumption|].
    intros describe handle_request th self.
    eapply serve_client_parse_error; [exact Hparse| |]; reflexivity.
  - intros conn lead items last Hlen Hraw Hlead Hitems Hlast Hcount.
    apply parse_request_malformed; [assumption|].
    rewrite Hraw, split_spaced by assumption.
    rewrite length_app, length_map.
    destruct last; simpl in *; lia.
Qed.

Lemma malformed_request_line_witness :
  (@parse_request typical (b_ "  GET   /x " ++ CRLF)
   = inl (HTTPError 400 (u "Bad request") (Some (u "Malformed request line")))
   /\ forall describe handle_request th self,
        @serve_client typical describe handle_request th
          (b_ "  GET   /x " ++ CRLF) self
        = let '(last, ending, self') := remove_current_thread th self in
          (Send (Response.mk 400 (u "Bad request")
                   (Some [(u "Content-Length", Int 22)])
                   (Some (b_ "Malformed request line")))
             :: CloseConn :: last, ending, self'))
  /\ @parse_request typical (b_ "GET /x HTTP/1.1 extra")
     = inl (HTTPError 400 (u "Bad request")
              (Some (u "Malformed request line"))).
Proof.
  split.
  - apply (proj1 (@malformed_request_line typical)).
    + vm_compute; discriminate.
    + vm_compute; discriminate.
  - apply (proj2 (@malformed_request_line typical)) with
      (lead := [])
      (items := [(u "GET", u " "); (u "/x", u " "); (u "HTTP/1.1", u " ")])
      (last := u "extra").
    + vm_compute; discriminate.
    + reflexivity.
    + reflexivity.
    + reflexivity.
    + reflexivity.
    + vm_compute; discriminate.
Defined.



(** C7, the claim as stated fails: for an [HTTPError] whose body text is
    the empty string, the body of the response is not the encoding of
    that text but the encoding of the reason phrase. *)
Lemma empty_body_text_counterexample :
  exists resp,
    error_response (fun _ => []) (HTTPError 404 (u "Not found") (Some []))
    = inr resp
    /\ Response.body resp = Some (b_ "Not found")
    /\ Response.headers resp = Some [(u "Content-Length", Int 9)]
    /\ Response.body resp <> encode_utf8 [].
Proof.
  eexists. split; [reflexivity|].
  split; [reflexivity|]. split; [reflexivity|].
  vm_compute; discriminate.
Qed.

(** C7, amended.  For an [HTTPError] the response has the status and the
    reason of the error; its body is the UTF-8 encoding of the body text
    of the error when that text is present and not empty, and of the
    reason phrase otherwise; its only header is Content-Length with the
    length of the encoded body.  For any other error, and for an
    [HTTPError] whose text cannot be encoded, the response is 500
    "Internal Server Error" with the encoded description of the error as
    body and its length as Content-Length. *)
Theorem error_response_spec :
  (forall (describe : exn -> str) (status : Z) (reason : str)
          (body : option str) (data : bytes),
      encode_utf8
        (match body with
         | Some [] | None => reason
         | Some text => text
         end) = Some data ->
      error_response describe (HTTPError status reason body)
      = inr (Response.mk status reason
               (Some [(u "Content-Length", Int (len data))]) (Some data)))
  /\ (forall (describe : exn -> str) (err : exn) (data : bytes),
         (forall status reason body, err <> HTTPError status reason body) ->
         encode_utf8 (describe err) = Some data ->
         error_response describe err
         = inr (Response.mk 500 (u "Internal Server Error")
                  (Some [(u "Content-Length", Int (len data))])
                  (Some data)))
  /\ (forall (describe : exn -> str) (status : Z) (reason : str)
             (body : option str) (data : bytes),
         encode_utf8
           (match body with
            | Some [] | None => reason
            | Some text => text
            end) = None ->
         encode_utf8 (describe (HTTPError status reason body)) = Some data ->
         error_response describe (HTTPError status reason body)
         = inr (Response.mk 500 (u "Internal Server Error")
                  (Some [(u "Content-Length", Int (len data))])
                  (Some data))).
Proof.
  split; [|split].
  - intros describe status reason body data H.
    unfold error_response.
    destruct body as [[|c text]|]; rewrite H; reflexivity.
  - intros describe err data Hne H.
    unfold error_response.
    destruct err as [status reason body| | | | | | |tag];
      [exfalso; eapply Hne; reflexivity|..]; rewrite H; reflexivity.
  - intros describe status reason body data H Hd.
    unfold error_response.
    destruct body as [[|c text]|]; rewrite H, Hd; reflexivity.
Qed.

Lemma error_response_spec_witness :
  error_response (fun _ => u "boom")
    (HTTPError 404 (u "Not Found") (Some [233%N]))
  = inr (Response.mk 404 (u "Not Found")
           (Some [(u "Content-Length", Int 2)]) (Some [xc3; xa9]))
  /\ error_response (fun _ => u "boom") ValueError
     = inr (Response.mk 500 (u "Internal Server Error")
              (Some [(u "Content-Length", Int 4)]) (Some (b_ "boom")))
  /\ error_response (fun _ => u "boom")
       (HTTPError 404 (u "Not Found") (Some [55296%N]))
     = inr (Response.mk 500 (u "Internal Server Error")
              (Some [(u "Content-Length", Int 4)]) (Some (b_ "boom"))).
Proof.
  split; [|split].
  - apply (proj1 error_response_spec (fun _ => u "boom") 404 (u "Not Found")
             (Some [233%N]) [xc3; xa9]).
    reflexivity.
  - apply (proj1 (proj2 error_response_spec) (fun _ => u "boom") ValueError
             (b_ "boom")).
    + intros status reason body; discriminate.
    + reflexivity.
  - apply (proj2 (proj2 error_response_spec) (fun _ => u "boom") 404
             (u "Not Found") (Some [55296%N]) (b_ "boom")).
    + reflexivity.
    + reflexivity.
Defined.

(** * What is buffered *)

(** A line that [readline] returns short of its size ends with a line
    feed or with the stream. *)
Lemma readline_complete (size : Z) (rfile line rest : bytes) :
  readline size rfile = (line, rest) ->
  len line < size ->
  is_line line = true \/ rest = [].
Proof.
  revert size line rest; induction rfile as [|b rfile IH];
    intros size line rest Hr Hlen; cbn [readline] in Hr.
  - injection Hr as <- <-. now right.
  - destruct (size =? 0) eqn:E0.
    + injection Hr as <- <-. apply Z.eqb_eq in E0. rewrite len_nil in Hlen.
      lia.
    + destruct (Byte.eqb b LF) eqn:Eb.
      * injection Hr as <- <-. left. cbn [is_line]. now rewrite Eb.
      * destruct (readline (size - 1) rfile) as [line' rest'] eqn:Er.
        injection Hr as <- <-. rewrite len_cons in Hlen.
        destruct (IH (size - 1) line' rest' Er ltac:(lia)) as [Hl|Hl];
          [left|right; assumption].
        cbn [is_line]. now rewrite Eb.
Qed.

(** What the loop of [parse_headers] takes off the stream, however it
    ends: the header lines that it keeps, each within the limit and
    complete unless the stream ends in it, and then one more line, which
    is blank, too long, one too many, or nothing at the end of the
    stream. *)
Lemma parse_headers_loop_at_consumed (rfile : bytes) :
  forall acc : list bytes,
    len acc <= MAX_HEADERS ->
    exists (lines : list bytes) (last : bytes),
      rfile = concat lines ++ last ++ snd (parse_headers_loop_at acc rfile)
      /\ len acc + len lines <= MAX_HEADERS
      /\ Forall (fun l => len l <= MAX_LINE) lines
      /\ len last <= MAX_LINE + 1
      /\ (Forall (fun l => is_line l = true) lines
          \/ snd (parse_headers_loop_at acc rfile) = []).
Proof.
  remember (length rfile) as n eqn:Hn. revert rfile Hn.
  induction n as [n IH] using lt_wf_ind.
  intros rfile Hn acc Hacc. rewrite parse_headers_loop_at_step.
  destruct (readline (MAX_LINE + 1) rfile) as [line rfile'] eqn:Hread.
  pose proof (readline_app (MAX_LINE + 1) rfile) as Happ.
  rewrite Hread in Happ; cbn [fst snd] in Happ.
  pose proof (@readline_length_le (MAX_LINE + 1) rfile
                ltac:(unfold MAX_LINE; lia)) as Hle.
  rewrite Hread in Hle; cbn [fst] in Hle.
  assert (Hone : exists (lines : list bytes) (last : bytes),
             rfile = concat lines ++ last ++ rfile'
             /\ len acc + len lines <= MAX_HEADERS
             /\ Forall (fun l => len l <= MAX_LINE) lines
             /\ len last <= MAX_LINE + 1
             /\ (Forall (fun l => is_line l = true) lines \/ rfile' = [])).
  { exists [], line. cbn [concat app]. rewrite len_nil.
    repeat split; [now symmetry|lia|constructor|assumption|].
    left; constructor. }
  destruct (len line >? MAX_LINE) eqn:Elong; [exact Hone|].
  apply gtb_false_inv in Elong.
  destruct (is_blank line) eqn:Eblank; [exact Hone|].
  destruct (len (acc ++ [line]) >? MAX_HEADERS) eqn:Emany; [exact Hone|].
  apply gtb_false_inv in Emany. clear Hone.
  rewrite len_app, len_cons, len_nil in Emany.
  pose proof (readline_shorter _ _ Hread Eblank) as Hshort.
  destruct (IH (length rfile') ltac:(lia) rfile' eq_refl (acc ++ [line]))
    as (lines & last & Heq & Hcount & Hall & Hlast & Hfull).
  { rewrite len_app, len_cons, len_nil. lia. }
  rewrite len_app, len_cons, len_nil in Hcount.
  exists (line :: lines), last. cbn [concat]. rewrite len_cons.
  repeat split.
  - rewrite <- app_assoc, <- Heq. now symmetry.
  - lia.
  - constructor; assumption.
  - assumption.
  - destruct Hfull as [Hfull|Hfull]; [|right; assumption].
    destruct (@readline_complete _ _ _ _ Hread ltac:(lia)) as [Hl|Hl].
    + left. constructor; assumption.
    + right. subst rfile'. symmetry in Heq.
      apply app_eq_nil in Heq as [_ Heq].
      apply app_eq_nil in Heq as [_ Heq]. exact Heq.
Qed.

(** C8, the claim as stated fails: of a line of 70000 bytes the parser
    has taken 65537 off the stream and holds them, one more than
    [MAX_LINE], at the moment it refuses the line, be it the request line
    or a header line. *)
Lemma line_buffer_counterexample :
  len (repeat x61 (Z.to_nat 70000))
  - len (snd (parse_request_line_at (repeat x61 (Z.to_nat 70000))))
  = MAX_LINE + 1
  /\ len (repeat x61 (Z.to_nat 70000))
     - len (snd (parse_headers_loop_at [] (repeat x61 (Z.to_nat 70000))))
     = MAX_LINE + 1
  /\ len (fst (readline (MAX_LINE + 1) (repeat x61 (Z.to_nat 70000))))
     = MAX_LINE + 1
  /\ len (fst (readline (MAX_LINE + 1) (repeat x61 (Z.to_nat 70000))))
     > MAX_LINE
  /\ parse_request_line (repeat x61 (Z.to_nat 70000))
     = inl (HTTPError 400 (u "Bad request")
              (Some (u "Request line is too long")))
  /\ parse_headers_loop [] (repeat x61 (Z.to_nat 70000))
     = inl (HTTPError 494 (u "Request header too large") None).
Proof.
  split; [vm_compute; reflexivity|].
  split; [vm_compute; reflexivity|].
  split; [vm_compute; reflexivity|].
  split; [vm_compute; reflexivity|].
  split; vm_compute; reflexivity.
Qed.

(** C8, amended.  The line that [parse_request_line] and [parse_headers]
    read into their buffer never has more than [MAX_LINE + 1] bytes:
    however it ends, [parse_request_line] takes one piece of at most
    [MAX_LINE + 1] bytes off the stream, and [parse_headers] takes at most
    [MAX_HEADERS] header lines of at most [MAX_LINE] bytes each, every one
    a complete line unless the stream ends in it, and then one more piece
    of at most [MAX_LINE + 1] bytes.  A buffered line of more than
    [MAX_LINE] bytes is refused by both, so every line that is kept has at
    most [MAX_LINE] bytes; and the header list that the loop returns never
    has more than [MAX_HEADERS] lines. *)
Theorem buffering_bounds {rt : runtime} :
  ((forall rfile : bytes,
       exists raw : bytes,
         rfile = raw ++ snd (parse_request_line_at rfile)
         /\ len raw <= MAX_LINE + 1)
   /\ (forall rfile : bytes,
          exists (lines : list bytes) (last : bytes),
            rfile = concat lines ++ last ++ snd (parse_headers_at rfile)
            /\ len lines <= MAX_HEADERS
            /\ Forall (fun l => len l <= MAX_LINE) lines
            /\ len last <= MAX_LINE + 1
            /\ (Forall (fun l => is_line l = true) lines
                \/ snd (parse_headers_at rfile) = [])))
  /\ (forall rfile : bytes,
         len (fst (readline (MAX_LINE + 1) rfile)) > MAX_LINE ->
         parse_request_line rfile
         = inl (HTTPError 400 (u "Bad request")
                  (Some (u "Request line is too long")))
         /\ forall headers,
              parse_headers_loop headers rfile
              = inl (HTTPError 494 (u "Request header too large") None))
  /\ (forall (acc : list bytes) (rfile : bytes) (headers : list bytes)
             (rfile' : bytes),
         len acc <= MAX_HEADERS ->
         parse_headers_loop acc rfile = inr (headers, rfile') ->
         len headers <= MAX_HEADERS
         /\ exists lines,
              headers = acc ++ lines
              /\ Forall (fun l => len l <= MAX_LINE) lines).
Proof.
  split; [|split].
  - split.
    + intros rfile. unfold parse_request_line_at.
      pose proof (readline_app (MAX_LINE + 1) rfile) as Happ.
      pose proof (@readline_length_le (MAX_LINE + 1) rfile
                    ltac:(unfold MAX_LINE; lia)) as Hle.
      destruct (readline (MAX_LINE + 1) rfile) as [raw rest].
      cbn [fst snd] in *. exists raw. split; [now symmetry|assumption].
    + intros rfile.
      destruct (@parse_headers_loop_at_consumed rfile [])
        as (lines & last & Heq & Hcount & Hall & Hlast & Hfull).
      { rewrite len_nil. unfold MAX_HEADERS; lia. }
      rewrite len_nil in Hcount.
      assert (Hsnd : snd (parse_headers_at rfile)
                     = snd (parse_headers_loop_at [] rfile)).
      { unfold parse_headers_at.
        destruct (parse_headers_loop_at [] rfile) as [[e|hs] rest];
          reflexivity. }
      rewrite Hsnd. exists lines, last.
      repeat split; [assumption|lia|assumption|assumption|assumption].
  - intros rfile Hlong. split.
    + rewrite parse_request_line_eq.
      destruct (readline (MAX_LINE + 1) rfile) as [raw rest];
        cbn [fst] in Hlong.
      now rewrite gtb_true by assumption.
    + intros headers. rewrite parse_headers_loop_step.
      destruct (readline (MAX_LINE + 1) rfile) as [raw rest];
        cbn [fst] in Hlong.
      now rewrite gtb_true by assumption.
  - intros acc rfile headers rfile' Hacc Hrun.
    destruct (parse_headers_loop_bound _ _ Hacc Hrun)
      as [Hle [lines [Heq Hall]]].
    split; [assumption|].
    exists lines. split; [assumption|].
    eapply Forall_impl; [|exact Hall]. intros l [Hl _]; exact Hl.
Qed.

Lemma buffering_bounds_witness :
  (parse_request_line (repeat x61 (Z.to_nat 65537))
   = inl (HTTPError 400 (u "Bad request")
            (Some (u "Request line is too long")))
   /\ forall headers,
        parse_headers_loop headers (repeat x61 (Z.to_nat 65537))
        = inl (HTTPError 494 (u "Request header too large") None))
  /\ (len [b_ "Host: h" ++ CRLF; b_ "A: b" ++ CRLF] <= MAX_HEADERS
      /\ exists lines,
           [b_ "Host: h" ++ CRLF; b_ "A: b" ++ CRLF] = [] ++ lines
           /\ Forall (fun l => len l <= MAX_LINE) lines).
Proof.
  split.
  - apply (proj1 (proj2 (@buffering_bounds typical))).
    vm_compute; reflexivity.
  - apply (proj2 (proj2 (@buffering_bounds typical))) with
      (rfile := b_ "Host: h" ++ CRLF ++ b_ "A: b" ++ CRLF ++ CRLF ++ b_ "x")
      (rfile' := b_ "x").
    + vm_compute; discriminate.
    + reflexivity.
Defined.

(** * The Host check *)

(** C10, the claim as stated fails: the header block below holds a header
    named Host with the non-empty value "h", and [parse_request] still
    raises the 400 error, because the first header named Host has an
    empty value.  This is so on every runtime. *)
Lemma first_host_counterexample :
  (forall rt : runtime,
      parse_headers (b_ "Host:" ++ CRLF ++ b_ "Host: h" ++ CRLF ++ CRLF)
      = inr ([(u "Host", []); (u "Host", u "h")], []))
  /\ (exists name value,
         In (name, value) [(u "Host", []); (u "Host", u "h")]
         /\ same_name name (u "Host") = true /\ value <> [])
  /\ forall rt : runtime,
       parse_request
         (b_ "GET / HTTP/1.1" ++ CRLF ++ b_ "Host:" ++ CRLF ++ b_ "Host: h"
            ++ CRLF ++ CRLF)
       = inl (HTTPError 400 (u "Bad request")
                (Some (u "Host header is missing"))).
Proof.
  split; [intros rt; vm_compute; reflexivity|]. split.
  - exists (u "Host"), (u "h"). split; [right; left; reflexivity|].
    split; [reflexivity|vm_compute; discriminate].
  - intros rt. vm_compute; reflexivity.
Qed.

(** C10, amended.  Once the request line and the header block are read,
    [parse_request] raises the 400 "Host header is missing" error if and
    only if the parsed header block has no header named Host, up to ASCII
    case, or the first such header has an empty value.  A header line
    "host: h" meets the requirement; a lone "Host:" with an empty value
    does not. *)
Theorem host_check {rt : runtime} :
  (forall (conn rest rest' : bytes) (m t v : str) (headers : email.Message),
      parse_request_line conn = inr (m, t, v, rest) ->
      parse_headers rest = inr (headers, rest') ->
      parse_request conn
      = inl (HTTPError 400 (u "Bad request")
               (Some (u "Host header is missing")))
      <-> match first_named (u "Host") headers with
          | None => True
          | Some (_, value) => value = []
          end)
  /\ parse_request (b_ "GET / HTTP/1.1" ++ CRLF ++ b_ "host: h" ++ CRLF ++ CRLF)
     = inr (Request.mk (u "GET") (u "/") (u "HTTP/1.1") [(u "host", u "h")] [])
  /\ parse_request (b_ "GET / HTTP/1.1" ++ CRLF ++ b_ "Host:" ++ CRLF ++ CRLF)
     = inl (HTTPError 400 (u "Bad request")
              (Some (u "Host header is missing"))).
Proof.
  split; [|split; vm_compute; reflexivity].
  intros conn rest rest' m t v headers Hline Hheaders.
  unfold parse_request. rewrite Hline, Hheaders, get_Host.
  destruct (first_named (u "Host") headers) as [[name [|c value]]|];
    cbn [option_map snd]; split; intros H;
    try reflexivity; try exact I; discriminate.
Qed.

Lemma host_check_witness :
  @parse_request typical
    (b_ "GET / HTTP/1.1" ++ CRLF ++ b_ "Accept: x" ++ CRLF ++ b_ "HOST:"
       ++ CRLF ++ b_ "Host: h" ++ CRLF ++ CRLF)
  = inl (HTTPError 400 (u "Bad request") (Some (u "Host header is missing"))).
Proof.
  apply (proj1 (@host_check typical)
           (b_ "GET / HTTP/1.1" ++ CRLF ++ b_ "Accept: x" ++ CRLF
              ++ b_ "HOST:" ++ CRLF ++ b_ "Host: h" ++ CRLF ++ CRLF)
           (b_ "Accept: x" ++ CRLF ++ b_ "HOST:" ++ CRLF ++ b_ "Host: h"
              ++ CRLF ++ CRLF)
           [] (u "GET") (u "/") (u "HTTP/1.1")
           [(u "Accept", u "x"); (u "HOST", []); (u "Host", u "h")]).
  - reflexivity.
  - reflexivity.
  - reflexivity.

Defined.

(** * The worker registry and its lock *)

Lemma registry_add_self (th : thread) (threads : registry) :
  In th (registry_add th threads).
Proof.
  unfold registry_add.
  destruct (in_dec Nat.eq_dec th threads); [assumption|now left].
Qed.

Lemma registry_add_remove (th : thread) (threads : registry) :
  ~ In th threads ->
  registry_remove th (registry_add th threads) = Some threads.
Proof.
  intros Hnot. unfold registry_add, registry_remove.
  destruct (in_dec Nat.eq_dec th threads) as [Hin|_]; [contradiction|].
  destruct (in_dec Nat.eq_dec th (th :: threads)) as [_|Hout];
    [|exfalso; apply Hout; now left].
  cbn [remove]. destruct (Nat.eq_dec th th) as [_|Hne]; [|contradiction].
  now rewrite notin_remove.
Qed.

Lemma quiet_app (a b : list event) : quiet (a ++ b) = quiet a && quiet b.
Proof. apply forallb_app. Qed.

Lemma quiet_no_acquire (events : list event) :
  quiet events = true ->
  existsb is_acquire events = false /\ existsb is_release events = false
  /\ filter is_acquire events = [].
Proof.
  induction events as [|e events IH]; [now repeat split|].
  cbn [quiet forallb]. intros H. apply andb_true_iff in H as [He Hq].
  destruct (IH Hq) as (Ha & Hr & Hf).
  destruct e; try discriminate He; cbn [existsb filter is_acquire is_release];
    rewrite ?Ha, ?Hr, ?Hf; now repeat split.
Qed.

Section WorkerEvents.

Context {rt : runtime}.
Variable describe : exn -> str.
Variable handle_request : Request.t -> result Response.t.

Lemma serve_client_try_quiet (conn : bytes) :
  quiet (fst (fst (serve_client_try handle_request conn))) = true.
Proof.
  unfold serve_client_try.
  destruct (parse_request conn) as [e|req]; [reflexivity|].
  destruct (handle_request req) as [e|resp]; [reflexivity|].
  destruct (send_response resp); reflexivity.
Qed.

(** The two ways of a worker: it ends with an exception of [send_error]
    and has touched neither the registry nor the lock, or it gets to
    lines 108 to 110 and has not touched them before. *)
Lemma serve_client_shape (th : thread) (conn : bytes) (self : server) :
  (exists events e,
      serve_client describe handle_request th conn self
      = (events, Raises e, self)
      /\ quiet events = true)
  \/ (exists before,
         quiet before = true
         /\ serve_client describe handle_request th conn self
            = let '(last, ending, self') := remove_current_thread th self in
              (before ++ last, ending, self')).
Proof.
  unfold serve_client.
  pose proof (serve_client_try_quiet conn) as Htry.
  destruct (serve_client_try handle_request conn) as [[tried req] raised].
  cbn [fst] in Htry.
  assert (Hgo : forall (sent : list event) (conn_open : bool),
             quiet sent = true ->
             exists before,
               quiet before = true
               /\ (let '(last, ending, self') :=
                     remove_current_thread th self in
                   (sent ++ (if conn_open then [CloseConn] else [])
                      ++ match req with
                         | Some _ => [CloseRfile]
                         | None => []
                         end ++ last, ending, self'))
                  = (let '(last, ending, self') :=
                       remove_current_thread th self in
                     (before ++ last, ending, self'))).
  { intros sent conn_open Hsent.
    exists (sent ++ (if conn_open then [CloseConn] else [])
              ++ match req with Some _ => [CloseRfile] | None => [] end).
    split.
    - rewrite !quiet_app, Hsent. destruct conn_open, req; reflexivity.
    - destruct (remove_current_thread th self) as [[last ending] self'].
      now rewrite <- !app_assoc. }
  assert (Hsent : forall resp, quiet (tried ++ [Send resp]) = true)
    by (intros resp; now rewrite quiet_app, Htry).
  destruct raised as [e|]; [|right; exact (Hgo tried true Htry)].
  destruct e;
    first
      [ destruct (error_response describe _) as [e'|resp];
        [ left; eexists; eexists; split; [reflexivity|assumption]
        | destruct (send_response resp) as [e'|out];
          [ left; eexists; eexists; split; [reflexivity|apply Hsent]
          | right; exact (Hgo (tried ++ [Send resp]) true (Hsent resp)) ] ]
      | right; exact (Hgo tried false Htry) ].
Qed.

End WorkerEvents.

(** C9.  The code does not keep what the claim says.  A worker takes the
    lock at most once, for the removal: the insertion is done by the
    accepting thread on line 83, after [th.start()] and without the lock.
    When the worker gets to line 108 before the accepting thread gets to
    line 83, its handle is not in the registry yet: the worker does not
    return, and if it has taken the lock it has ended with [KeyError]
    and has not released it; line 83 then inserts the handle of a thread
    that has ended, so the registry is not empty when the connection is
    through.  On a server whose lock was left held, no worker returns and
    none changes the registry: each waits for ever on line 108 unless it
    has ended before.  In the other order a worker that returns leaves
    the registry as it was before the round, and one that does not
    return leaves its handle in the registry. *)
Theorem registry_race {rt : runtime} :
  (forall describe handle_request worker_first th conn self events ending
          self',
      serve_forever_round describe handle_request worker_first th conn self
      = (events, ending, self') ->
      (length (filter is_acquire events) <= 1)%nat)
  /\ (forall describe handle_request th conn self events ending self',
         s_lock self = false ->
         ~ In th (s_threads self) ->
         serve_forever_round describe handle_request true th conn self
         = (events, ending, self') ->
         In th (s_threads self')
         /\ ending <> Returns
         /\ (existsb is_acquire events = true ->
             ending = Raises KeyError
             /\ s_lock self' = true
             /\ existsb is_release events = false))
  /\ (forall describe handle_request th conn self events ending self',
         s_lock self = true ->
         serve_client describe handle_request th conn self
         = (events, ending, self') ->
         ending <> Returns
         /\ self' = self
         /\ existsb is_release events = false)
  /\ (forall describe handle_request th conn self events ending self',
         s_lock self = false ->
         ~ In th (s_threads self) ->
         serve_forever_round describe handle_request false th conn self
         = (events, ending, self') ->
         (ending = Returns -> self' = self)
         /\ (ending <> Returns -> In th (s_threads self'))).
Proof.
  split; [|split; [|split]].
  - intros describe handle_request worker_first th conn self events ending
           self' Hround.
    unfold serve_forever_round in Hround.
    assert (Hworker : forall self0 events0 ending0 self1,
               serve_client describe handle_request th conn self0
               = (events0, ending0, self1) ->
               (length (filter is_acquire events0) <= 1)%nat).
    { intros self0 events0 ending0 self1 Hrun.
      destruct (serve_client_shape describe handle_request th conn self0)
        as [(ev & e & Heq & Hq)|(before & Hq & Heq)];
        rewrite Heq in Hrun.
      - injection Hrun as <- _ _.
        apply quiet_no_acquire in Hq as (_ & _ & ->). cbn; lia.
      - apply quiet_no_acquire in Hq as (_ & _ & Hf).
        unfold remove_current_thread in Hrun.
        destruct (s_lock self0);
          [|destruct (registry_remove th (s_threads self0))];
          injection Hrun as <- _ _; rewrite filter_app, Hf; cbn; lia. }
    destruct worker_first.
    + destruct (serve_client describe handle_request th conn self)
        as [[events0 ending0] self1] eqn:Hrun.
      injection Hround as <- _ _.
      cbn [filter is_acquire]. rewrite filter_app. cbn [filter is_acquire].
      rewrite app_nil_r. exact (Hworker _ _ _ _ Hrun).
    + destruct (serve_client describe handle_request th conn _)
        as [[events0 ending0] self1] eqn:Hrun.
      injection Hround as <- _ _.
      cbn [filter is_acquire]. exact (Hworker _ _ _ _ Hrun).
  - intros describe handle_request th conn self events ending self'
           Hlock Hnot Hround.
    unfold serve_forever_round in Hround.
    destruct (serve_client_shape describe handle_request th conn self)
      as [(ev & e & Heq & Hq)|(before & Hq & Heq)];
      rewrite Heq in Hround.
    + injection Hround as <- <- <-. cbn [s_threads s_lock].
      split; [apply registry_add_self|]. split; [discriminate|].
      intros Hacq. exfalso.
      apply quiet_no_acquire in Hq as (Ha & _ & _).
      cbn [existsb is_acquire] in Hacq.
      rewrite existsb_app, Ha in Hacq. discriminate Hacq.
    + unfold remove_current_thread, registry_remove in Hround.
      rewrite Hlock in Hround.
      destruct (in_dec Nat.eq_dec th (s_threads self)) as [Hin|_];
        [contradiction|].
      injection Hround as <- <- <-. cbn [s_threads s_lock].
      split; [apply registry_add_self|]. split; [discriminate|].
      intros _. split; [reflexivity|]. split; [reflexivity|].
      apply quiet_no_acquire in Hq as (_ & Hr & _).
      cbn [existsb is_release]. rewrite !existsb_app, Hr. reflexivity.
  - intros describe handle_request th conn self events ending self'
           Hlock Hrun.
    destruct (serve_client_shape describe handle_request th conn self)
      as [(ev & e & Heq & Hq)|(before & Hq & Heq)];
      rewrite Heq in Hrun.
    + injection Hrun as <- <- <-.
      apply quiet_no_acquire in Hq as (_ & Hr & _).
      split; [discriminate|]. split; [reflexivity|assumption].
    + unfold remove_current_thread in Hrun. rewrite Hlock in Hrun.
      injection Hrun as <- <- <-.
      apply quiet_no_acquire in Hq as (_ & Hr & _).
      split; [discriminate|]. split; [reflexivity|].
      rewrite existsb_app, Hr. reflexivity.
  - intros describe handle_request th conn self events ending self'
           Hlock Hnot Hround.
    unfold serve_forever_round in Hround.
    destruct (serve_client_shape describe handle_request th conn
                (mk_server (registry_add th (s_threads self)) (s_lock self)))
      as [(ev & e & Heq & Hq)|(before & Hq & Heq)];
      rewrite Heq in Hround.
    + injection Hround as _ <- <-. cbn [s_threads].
      split; [discriminate|]. intros _. apply registry_add_self.
    + unfold remove_current_thread in Hround.
      cbn [s_threads s_lock] in Hround.
      rewrite Hlock, registry_add_remove in Hround by assumption.
      injection Hround as _ <- <-.
      split; [|intros H; now contradiction H].
      intros _. destruct self as [threads lock]. cbn [s_lock] in Hlock.
      now subst lock.
Qed.

(** The connection of the witness: a request that the handler answers
    with 200 "OK", served by thread 7 on a server with an empty registry
    and a free lock.  With the worker first the registry holds the handle
    of the ended worker and the lock is held; with line 83 first the
    server is left as it was. *)
Lemma registry_race_witness :
  @serve_forever_round typical (fun _ => [])
    (fun _ => inr (Response.mk 200 (u "OK") None None)) true 7%nat
    (b_ "GET / HTTP/1.1" ++ CRLF ++ b_ "Host: h" ++ CRLF ++ CRLF)
    (mk_server [] false)
  = ([Start 7%nat;
      Handle (Request.mk (u "GET") (u "/") (u "HTTP/1.1") [(u "Host", u "h")]
                []);
      Send (Response.mk 200 (u "OK") None None);
      CloseConn; CloseRfile; Acquire; Remove 7%nat; Add 7%nat],
     Raises KeyError, mk_server [7%nat] true)
  /\ (In 7%nat (s_threads (mk_server [7%nat] true))
      /\ Raises KeyError <> Returns
      /\ (existsb is_acquire
            [Start 7%nat;
             Handle (Request.mk (u "GET") (u "/") (u "HTTP/1.1")
                       [(u "Host", u "h")] []);
             Send (Response.mk 200 (u "OK") None None);
             CloseConn; CloseRfile; Acquire; Remove 7%nat; Add 7%nat] = true ->
          Raises KeyError = Raises KeyError
          /\ s_lock (mk_server [7%nat] true) = true
          /\ existsb is_release
               [Start 7%nat;
                Handle (Request.mk (u "GET") (u "/") (u "HTTP/1.1")
                          [(u "Host", u "h")] []);
                Send (Response.mk 200 (u "OK") None None);
                CloseConn; CloseRfile; Acquire; Remove 7%nat; Add 7%nat]
             = false)).
Proof.
  split; [vm_compute; reflexivity|].
  apply (proj1 (proj2 (@registry_race typical)) (fun _ => [])
           (fun _ => inr (Response.mk 200 (u "OK") None None)) 7%nat
           (b_ "GET / HTTP/1.1" ++ CRLF ++ b_ "Host: h" ++ CRLF ++ CRLF)
           (mk_server [] false)).
  - reflexivity.
  - intros H; exact H.
  - vm_compute; reflexivity.
Defined.

(** * Further properties of the codec *)

Lemma encode_decode_latin1 (raw : bytes) :
  encode_latin1 (decode_latin1 raw) = Some raw.
Proof.
  induction raw as [|b raw IH]; [reflexivity|].
  simpl. now rewrite Byte.of_to_N, IH.
Qed.

Lemma decode_encode_latin1 (s : str) (raw : bytes) :
  encode_latin1 s = Some raw -> decode_latin1 raw = s.
Proof.
  revert raw; induction s as [|c s IH]; intros raw H; simpl in H.
  - injection H as <-. reflexivity.
  - destruct (Byte.of_N c) as [b|] eqn:Eb; [|discriminate].
    destruct (encode_latin1 s) as [bs|]; [|discriminate].
    injection H as <-. simpl. apply Byte.to_of_N in Eb.
    now rewrite Eb, (IH bs eq_refl).
Qed.

Lemma encode_latin1_encodable (s : str) :
  encodable s = true <-> exists raw, encode_latin1 s = Some raw.
Proof.
  induction s as [|c s IH]; simpl.
  - split; [intros _; now exists []|reflexivity].
  - destruct (Byte.of_N c) as [b|] eqn:Eb.
    + assert (Hc : (c <=? 255)%N = true).
      { apply N.leb_le. apply Byte.to_of_N in Eb. subst c.
        apply Byte.to_N_bounded. }
      rewrite Hc. cbn [andb]. rewrite IH.
      destruct (encode_latin1 s) as [bs|].
      * split; intros _; eexists; reflexivity.
      * split; intros [raw H]; discriminate.
    + assert (Hc : (c <=? 255)%N = false).
      { apply N.leb_gt. now apply Byte.of_N_None_iff. }
      rewrite Hc. cbn [andb].
      split; [discriminate|intros [raw H]; discriminate].
Qed.

(** X1.  ISO-8859-1 is 8-bit clean: every byte string decodes, encoding
    what was decoded gives the bytes back, decoding what was encoded gives
    the text back, and a text can be encoded exactly when it holds no code
    point above 255. *)
Theorem latin1_round_trip :
  (forall raw : bytes, encode_latin1 (decode_latin1 raw) = Some raw)
  /\ (forall (s : str) (raw : bytes),
         encode_latin1 s = Some raw -> decode_latin1 raw = s)
  /\ (forall s : str,
         encode_latin1 s = None <-> Exists (fun c => (255 < c)%N) s).
Proof.
  split; [exact encode_decode_latin1|].
  split; [exact decode_encode_latin1|].
  intros s. split.
  - intros H.
    assert (Hs : encodable s = false).
    { destruct (encodable s) eqn:E; [|reflexivity].
      apply encode_latin1_encodable in E as [raw E]. congruence. }
    clear H. induction s as [|c s IH]; [discriminate|].
    simpl in Hs. destruct (c <=? 255)%N eqn:Ec.
    + right. apply IH, Hs.
    + left. now apply N.leb_gt.
  - intros H. destruct (encode_latin1 s) as [raw|] eqn:E; [|reflexivity].
    exfalso.
    assert (Hs : encodable s = true)
      by (apply encode_latin1_encodable; now exists raw).
    clear E. induction H as [c s Hc|c s _ IH]; simpl in Hs;
      apply andb_prop in Hs as [Hc' Hs'].
    + apply N.leb_le in Hc'. lia.
    + auto.
Qed.

Lemma latin1_round_trip_witness :
  decode_latin1 [x48; xe9; xff] = [72%N; 233%N; 255%N]
  /\ encode_latin1 [72%N; 8364%N] = None.
Proof.
  split.
  - apply (proj1 (proj2 latin1_round_trip)). reflexivity.
  - apply (proj2 (proj2 latin1_round_trip)). right; left. reflexivity.
Defined.

(** * Further properties of request parsing *)

Lemma split_from_tokens (s cur : str) :
  forallb (fun c => negb (isspace c)) cur = true ->
  Forall (fun w => is_token w = true) (split_from cur s).
Proof.
  revert cur; induction s as [|c s IH]; intros cur Hcur; simpl.
  - destruct cur; [constructor|]. constructor; [exact Hcur|constructor].
  - destruct (isspace c) eqn:Ec.
    + destruct cur; [now apply IH|].
      constructor; [exact Hcur|now apply IH].
    + apply IH. rewrite forallb_app, Hcur. simpl. now rewrite Ec.
Qed.

Lemma split_from_concat (s cur : str) :
  concat (split_from cur s) = cur ++ filter (fun c => negb (isspace c)) s.
Proof.
  revert cur; induction s as [|c s IH]; intros cur; simpl.
  - destruct cur; simpl; now rewrite ?app_nil_r.
  - destruct (isspace c) eqn:Ec; cbn [negb].
    + destruct cur; simpl; rewrite IH; reflexivity.
    + rewrite IH, <- app_assoc. reflexivity.
Qed.

(** X2.  The method and the target of a request that [parse_request]
    returns are never empty and hold no whitespace, and method, target and
    version together are the request line with its whitespace taken
    out. *)
Theorem parse_request_tokens {rt : runtime} (conn : bytes)
  (req : Request.t) :
  parse_request conn = inr req ->
  is_token (Request.method req) = true
  /\ is_token (Request.target req) = true
  /\ Request.method req ++ Request.target req ++ Request.version req
     = filter (fun c => negb (isspace c))
         (decode_latin1 (fst (readline (MAX_LINE + 1) conn))).
Proof.
  unfold parse_request.
  destruct (parse_request_line conn) as [e|[[[m t] v] rest]] eqn:Hline;
    [discriminate|].
  apply parse_request_line_inr in Hline as (_ & _ & Hsplit & _).
  destruct (parse_headers rest) as [e|[headers rest']]; [discriminate|].
  destruct (email.get headers (u "Host")) as [[|c host]|]; try discriminate.
  intros H; injection H as <-. cbn [Request.method Request.target
                                     Request.version].
  pose proof (split_from_tokens
                (decode_latin1 (fst (readline (MAX_LINE + 1) conn))) []
                eq_refl) as Htok.
  pose proof (split_from_concat
                (decode_latin1 (fst (readline (MAX_LINE + 1) conn))) [])
    as Hcat.
  fold (split (decode_latin1 (fst (readline (MAX_LINE + 1) conn))))
    in Htok, Hcat.
  rewrite Hsplit in Htok, Hcat.
  inversion Htok as [|? ? Hm Htok']; subst.
  inversion Htok' as [|? ? Ht _]; subst.
  simpl in Hcat. rewrite app_nil_r in Hcat.
  auto.
Qed.

Lemma parse_request_tokens_witness :
  is_token (u "GET") = true /\ is_token (u "/a") = true
  /\ u "GET" ++ u "/a" ++ u "HTTP/1.1"
     = filter (fun c => negb (isspace c))
         (decode_latin1
            (fst (readline (MAX_LINE + 1)
                    (b_ " GET  /a HTTP/1.1 " ++ CRLF ++ b_ "Host: h" ++ CRLF
                       ++ CRLF)))).
Proof.
  apply (@parse_request_tokens typical
           (b_ " GET  /a HTTP/1.1 " ++ CRLF ++ b_ "Host: h" ++ CRLF ++ CRLF)
           (Request.mk (u "GET") (u "/a") (u "HTTP/1.1") [(u "Host", u "h")]
              [])).
  reflexivity.
Defined.


Lemma parse_request_line_errors (conn : bytes) (e : exn) :
  parse_request_line conn = inl e -> In e parse_errors.
Proof.
  rewrite parse_request_line_eq.
  destruct (readline (MAX_LINE + 1) conn) as [raw rest].
  destruct (len raw >? MAX_LINE); [intros H; injection H as <-; now left|].
  destruct (len (split (decode_latin1 raw)) =? 3) eqn:E; cbn [negb];
    [|intros H; injection H as <-; right; now left].
  apply Z.eqb_eq in E. unfold len in E.
  destruct (split (decode_latin1 raw)) as [|a [|b [|c [|d l]]]];
    simpl length in E; try lia.
  destruct (str_eq_dec c (u "HTTP/1.1")); [discriminate|].
  intros H; injection H as <-. right; right; now left.
Qed.

Lemma parse_headers_loop_errors (acc : list bytes) (rfile : bytes) (e : exn) :
  parse_headers_loop acc rfile = inl e -> In e parse_errors.
Proof.
  remember (length rfile) as n eqn:Hn.
  revert acc rfile Hn; induction n as [n IH] using lt_wf_ind.
  intros acc rfile Hn Hrun.
  rewrite parse_headers_loop_step in Hrun.
  destruct (readline (MAX_LINE + 1) rfile) as [line rest] eqn:Hread.
  destruct (len line >? MAX_LINE);
    [injection Hrun as <-; do 3 right; now left|].
  destruct (is_blank line) eqn:Eblank; [discriminate|].
  destruct (len (acc ++ [line]) >? MAX_HEADERS);
    [injection Hrun as <-; do 4 right; now left|].
  pose proof (readline_shorter _ _ Hread Eblank) as Hshort.
  exact (IH (length rest) ltac:(lia) (acc ++ [line]) rest eq_refl Hrun).
Qed.

Lemma parse_request_raises `{runtime} (conn : bytes) (e : exn) :
  parse_request conn = inl e -> In e parse_errors \/ of_library e = true.
Proof.
  intros H0. unfold parse_request in H0.
  destruct (parse_request_line conn) as [e'|[[[m t] v] rest]] eqn:Hline.
  - injection H0 as <-. left. now apply parse_request_line_errors in Hline.
  - rewrite parse_headers_eq in H0.
    destruct (parse_headers_loop [] rest) as [e'|[headers rest']] eqn:Hloop.
    + injection H0 as <-. left. now apply parse_headers_loop_errors in Hloop.
    + destruct (email.parsestr (decode_latin1 (concat headers)))
        as [e'|msg] eqn:Hmsg.
      * injection H0 as <-. right. now apply parsestr_of_library in Hmsg.
      * destruct (email.get _ (u "Host")) as [[|c host]|]; try discriminate;
          injection H0 as <-; left; do 5 right; now left.
Qed.

(** X3.  Every [HTTPError] that [parse_request] raises is one of six: the
    request line is too long or malformed (400), the version is not
    supported (505), a header line is too large or there are too many
    (494), or the Host header is missing (400). *)
Theorem parse_request_errors {rt : runtime} (conn : bytes) (status : Z)
  (reason : str) (body : option str) :
  parse_request conn = inl (HTTPError status reason body) ->
  In (HTTPError status reason body) parse_errors
  /\ (status = 400 \/ status = 494 \/ status = 505).
Proof.
  intros H0. apply parse_request_raises in H0 as [Hin|Hlib];
    [|discriminate Hlib].
  split; [assumption|].
  unfold parse_errors in Hin. simpl in Hin.
  destruct Hin as [E|[E|[E|[E|[E|[E|[]]]]]]]; injection E as <- _ _; auto.
Qed.

Lemma parse_request_errors_witness :
  In (HTTPError 400 (u "Bad request") (Some (u "Malformed request line")))
    parse_errors
  /\ (400 = 400 \/ 400 = 494 \/ 400 = 505).
Proof.
  apply (@parse_request_errors typical [xff; x00; x0a]). reflexivity.
Defined.

Lemma parse_headers_loop_stream (acc : list bytes) (rfile : bytes)
  (headers : list bytes) (rfile' : bytes) :
  parse_headers_loop acc rfile = inr (headers, rfile') ->
  exists lines blank,
    headers = acc ++ lines
    /\ rfile = concat lines ++ blank ++ rfile'
    /\ is_blank blank = true.
Proof.
  remember (length rfile) as n eqn:Hn.
  revert acc rfile Hn; induction n as [n IH] using lt_wf_ind.
  intros acc rfile Hn Hrun.
  rewrite parse_headers_loop_step in Hrun.
  pose proof (readline_app (MAX_LINE + 1) rfile) as Happ.
  destruct (readline (MAX_LINE + 1) rfile) as [line rest] eqn:Hread.
  cbn [fst snd] in Happ.
  destruct (len line >? MAX_LINE); [discriminate|].
  destruct (is_blank line) eqn:Eblank.
  - injection Hrun as <- <-. exists [], line.
    rewrite app_nil_r. auto.
  - destruct (len (acc ++ [line]) >? MAX_HEADERS); [discriminate|].
    pose proof (readline_shorter _ _ Hread Eblank) as Hshort.
    destruct (IH (length rest) ltac:(lia) (acc ++ [line]) rest eq_refl Hrun)
      as (lines & blank & -> & Hrest & Hb).
    exists (line :: lines), blank. rewrite <- app_assoc.
    split; [reflexivity|]. split; [|assumption].
    simpl concat. rewrite <- app_assoc, <- Hrest. now symmetry.
Qed.

(** X4.  A request that [parse_request] returns accounts for every byte of
    the connection: the connection is the request line, then the header
    lines, then the blank line (or nothing, at the end of the stream),
    then the stream of the request, of which parsing has read nothing.
    The request line is within the limit and splits into method, target
    and version; there are at most [MAX_HEADERS] header lines, each of at
    most [MAX_LINE] bytes and none blank; the headers of the request are
    the parsed header lines. *)
Theorem parse_request_consumes {rt : runtime} (conn : bytes)
  (req : Request.t) :
  parse_request conn = inr req ->
  exists (raw : bytes) (lines : list bytes) (blank : bytes),
    conn = raw ++ concat lines ++ blank ++ Request.rfile req
    /\ len raw <= MAX_LINE
    /\ split (decode_latin1 raw)
       = [Request.method req; Request.target req; Request.version req]
    /\ len lines <= MAX_HEADERS
    /\ Forall (fun l => len l <= MAX_LINE /\ is_blank l = false) lines
    /\ is_blank blank = true
    /\ email.parsestr (decode_latin1 (concat lines))
       = inr (Request.headers req).
Proof.
  unfold parse_request.
  destruct (parse_request_line conn) as [e|[[[m t] v] rest]] eqn:Hline;
    [discriminate|].
  apply parse_request_line_inr in Hline as (Hread & Hlen & Hsplit & _).
  pose proof (readline_app (MAX_LINE + 1) conn) as Happ.
  rewrite Hread in Happ at 2. cbn [snd] in Happ.
  rewrite parse_headers_eq.
  destruct (parse_headers_loop [] rest) as [e|[headers rest']] eqn:Hloop;
    [discriminate|].
  destruct (email.parsestr (decode_latin1 (concat headers))) as [e|msg]
    eqn:Hmsg; [discriminate|].
  destruct (email.get _ (u "Host")) as [[|c host]|]; try discriminate.
  intros H; injection H as <-.
  cbn [Request.method Request.target Request.version Request.headers
         Request.rfile].
  destruct (parse_headers_loop_stream _ _ Hloop)
    as (lines & blank & Hh & Hrest & Hb).
  destruct (@parse_headers_loop_bound [] rest headers rest'
              ltac:(rewrite len_nil; unfold MAX_HEADERS; lia) Hloop)
    as (Hcount & lines' & Hh' & Hall).
  simpl in Hh, Hh'. subst headers. subst lines'.
  exists (fst (readline (MAX_LINE + 1) conn)), lines, blank.
  rewrite <- Hrest, Happ. auto 10.
Qed.

Lemma parse_request_consumes_witness :
  exists (raw : bytes) (lines : list bytes) (blank : bytes),
    b_ "GET / HTTP/1.1" ++ CRLF ++ b_ "Host: h" ++ CRLF ++ CRLF ++ b_ "body"
    = raw ++ concat lines ++ blank ++ b_ "body"
    /\ len raw <= MAX_LINE
    /\ split (decode_latin1 raw) = [u "GET"; u "/"; u "HTTP/1.1"]
    /\ len lines <= MAX_HEADERS
    /\ Forall (fun l => len l <= MAX_LINE /\ is_blank l = false) lines
    /\ is_blank blank = true
    /\ @email.parsestr typical (decode_latin1 (concat lines))
       = inr [(u "Host", u "h")].
Proof.
  apply (@parse_request_consumes typical
           (b_ "GET / HTTP/1.1" ++ CRLF ++ b_ "Host: h" ++ CRLF ++ CRLF
              ++ b_ "body")
           (Request.mk (u "GET") (u "/") (u "HTTP/1.1") [(u "Host", u "h")]
              (b_ "body"))).
  reflexivity.
Defined.


(** * Further properties of response serialization *)

Lemma encodable_app (a b : str) :
  encodable (a ++ b) = encodable a && encodable b.
Proof. unfold encodable. apply forallb_app. Qed.

Lemma encode_latin1_u (s : string) : encode_latin1 (u s) = Some (b_ s).
Proof. apply encode_decode_latin1. Qed.

Lemma encodable_u (s : string) : encodable (u s) = true.
Proof. apply encode_latin1_encodable. eexists. apply encode_latin1_u. Qed.

Lemma encode_latin1_app (a b : str) (ra rb : bytes) :
  encode_latin1 a = Some ra -> encode_latin1 b = Some rb ->
  encode_latin1 (a ++ b) = Some (ra ++ rb).
Proof.
  revert ra; induction a as [|c a IH]; intros ra Ha Hb; simpl in *.
  - injection Ha as <-. exact Hb.
  - destruct (Byte.of_N c); [|discriminate].
    destruct (encode_latin1 a) as [ra'|]; [|discriminate].
    injection Ha as <-. now rewrite (IH ra' eq_refl Hb).
Qed.

Lemma encodable_str_of_int (n : Z) : encodable (str_of_int n) = true.
Proof. apply encodable_u. Qed.

Lemma encode_line_inr (text : str) (data : bytes) :
  encode_line (inr text) = inr data -> encodable text = true.
Proof.
  unfold encode_line.
  destruct (encode_latin1 text) as [raw|] eqn:E; [|discriminate].
  intros _. apply encode_latin1_encodable. now exists raw.
Qed.

Lemma status_line_inr (resp : Response.t) (data : bytes) :
  encode_line (status_line resp) = inr data ->
  fits (Int (Response.status resp)) = true
  /\ encodable (Response.reason resp) = true.
Proof.
  unfold status_line.
  destruct (fits (Int (Response.status resp))) eqn:Ef.
  - rewrite (format_fits _ Ef). cbn [text_of]. intros H0.
    apply encode_line_inr in H0.
    rewrite !encodable_app, encodable_u, encodable_str_of_int in H0.
    cbn [andb] in H0. apply andb_true_iff in H0 as [_ H0].
    apply andb_true_iff in H0 as [H0 _]. auto.
  - rewrite (format_unfit _ Ef). discriminate.
Qed.

Lemma header_line_inr (h : str * obj) (data : bytes) :
  encode_line (header_line h) = inr data ->
  fits (snd h) && encodable (fst h) && encodable (text_of (snd h)) = true.
Proof.
  destruct h as [k v]. unfold header_line. cbn [fst snd].
  destruct (fits v) eqn:Ef.
  - rewrite (format_fits _ Ef). intros H0. apply encode_line_inr in H0.
    rewrite !encodable_app, encodable_u in H0. cbn [andb] in *.
    apply andb_true_iff in H0 as [Hk H0].
    apply andb_true_iff in H0 as [Hv _]. now rewrite Hk, Hv.
  - rewrite (format_unfit _ Ef). discriminate.
Qed.

Lemma write_headers_inr (headers : list (str * obj)) (wfile out : bytes) :
  write_headers wfile headers = inr out ->
  forallb (fun h => fits (snd h) && encodable (fst h)
                    && encodable (text_of (snd h))) headers = true.
Proof.
  revert wfile; induction headers as [|h headers IH]; intros wfile;
    cbn [write_headers forallb]; [reflexivity|].
  destruct (encode_line (header_line h)) as [e|data] eqn:E; [discriminate|].
  intros H0. apply header_line_inr in E. rewrite E. cbn [andb].
  exact (IH _ H0).
Qed.

(** X5.  [send_response] returns only for a response whose status and
    integer header values have at most 4300 digits and whose reason
    phrase, header names and header values hold no code point above 255.
    A status of more digits makes it raise [ValueError], and a reason
    phrase with a code point above 255, after a status that fits, makes
    it raise [UnicodeEncodeError]. *)
Theorem send_response_succeeds (resp : Response.t) :
  (forall out,
      send_response resp = inr out ->
      fits (Int (Response.status resp)) = true
      /\ encodable (Response.reason resp) = true
      /\ forallb (fun h => fits (snd h) && encodable (fst h)
                           && encodable (text_of (snd h)))
           (match Response.headers resp with Some hs => hs | None => [] end)
         = true)
  /\ (fits (Int (Response.status resp)) = false ->
      send_response resp = inl ValueError)
  /\ (fits (Int (Response.status resp)) = true ->
      encodable (Response.reason resp) = false ->
      send_response resp = inl UnicodeEncodeError).
Proof.
  split; [|split].
  - intros out. unfold send_response.
    destruct (encode_line (status_line resp)) as [e|line] eqn:Eline;
      [discriminate|].
    apply status_line_inr in Eline as [Hs Hr]. intros H0.
    split; [assumption|]. split; [assumption|].
    destruct (Response.headers resp) as [[|h hs]|]; try reflexivity.
    destruct (write_headers (write [] line) (h :: hs)) as [e|wfile] eqn:Ew;
      [discriminate|].
    exact (write_headers_inr _ _ Ew).
  - intros Hs. unfold send_response, status_line.
    now rewrite (format_unfit _ Hs).
  - intros Hs Hr. unfold send_response, status_line.
    rewrite (format_fits _ Hs). cbn [text_of encode_line].
    destruct (encode_latin1 _) as [line|] eqn:E; [|reflexivity].
    assert (He : encodable
                   (u "HTTP/1.1 " ++ str_of_int (Response.status resp)
                      ++ u " " ++ Response.reason resp ++ crlf) = true)
      by (apply encode_latin1_encodable; now exists line).
    rewrite !encodable_app, Hr in He. cbn [andb] in He.
    rewrite !andb_false_r in He. discriminate He.
Qed.

Lemma send_response_succeeds_witness :
  send_response (Response.mk (10 ^ 4300) (u "OK") None None)
  = inl ValueError
  /\ send_response (Response.mk 404 [1053%N; 1077%N; 1090%N] None None)
     = inl UnicodeEncodeError.
Proof.
  split.
  - apply (proj1 (proj2 (send_response_succeeds
                           (Response.mk (10 ^ 4300) (u "OK") None None)))).
    vm_compute; reflexivity.
  - apply (proj2 (proj2 (send_response_succeeds
                           (Response.mk 404 [1053%N; 1077%N; 1090%N]
                              None None)))).
    + reflexivity.
    + reflexivity.
Defined.

Lemma send_response_closed_form (resp : Response.t) (line : bytes)
  (hlines : list bytes) :
  encode_line (status_line resp) = inr line ->
  Forall2 (fun h data => encode_line (header_line h) = inr data)
    (match Response.headers resp with Some hs => hs | None => [] end)
    hlines ->
  send_response resp
  = inr (line ++ concat hlines ++ CRLF
           ++ match Response.body resp with Some b => b | None => [] end).
Proof.
  destruct resp as [status reason headers body].
  cbn [Response.headers Response.body]. intros Hline Hh.
  unfold send_response. rewrite Hline.
  cbn [Response.headers Response.body].
  change (write [] line) with line.
  assert (Hw : match headers with
               | Some ((_ :: _) as hs) => write_headers line hs
               | _ => inr line
               end = inr (line ++ concat hlines)).
  { destruct headers as [[|h hs]|].
    - inversion Hh; subst. now rewrite app_nil_r.
    - now apply write_headers_all.
    - inversion Hh; subst. now rewrite app_nil_r. }
  rewrite Hw. unfold write.
  destruct body as [[|b body]|];
    rewrite <- ?app_assoc, ?app_nil_r; reflexivity.
Qed.

Section ErrorWire.

Variable describe : exn -> str.

Lemma error_response_shape (err : exn) (resp : Response.t) :
  error_response describe err = inr resp ->
  exists body,
    resp = Response.mk (Response.status resp) (Response.reason resp)
             (Some [(u "Content-Length", Int (len body))]) (Some body).
Proof.
  unfold error_response.
  destruct (match err with
            | HTTPError status reason body =>
                match encode_utf8 match body with
                                  | Some ((_ :: _) as text) => text
                                  | _ => reason
                                  end with
                | Some body0 => Some (status, reason, body0)
                | None => None
                end
            | _ => None
            end) as [[[status reason] body]|].
  - intros H; injection H as <-. now exists body.
  - destruct (encode_utf8 (describe err)) as [body|]; [|discriminate].
    intros H; injection H as <-. now exists body.
Qed.

End ErrorWire.

(** X6.  When [send_error] has built its response and the reason phrase
    can be encoded, and the status and the length of the body are numbers
    of at most 4300 digits, it writes the status line, one Content-Length
    header and the body, and the number in that header is the number of
    body bytes that follow the blank line. *)
Theorem send_error_wire (describe : exn -> str) (err : exn)
  (resp : Response.t) (rb : bytes) :
  error_response describe err = inr resp ->
  fits (Int (Response.status resp)) = true ->
  forallb (fun h => fits (snd h))
    (match Response.headers resp with Some hs => hs | None => [] end)
  = true ->
  encode_latin1 (Response.reason resp) = Some rb ->
  exists body,
    Response.body resp = Some body
    /\ send_error describe err
       = inr (b_ "HTTP/1.1 " ++ bytes_of_int (Response.status resp)
                ++ b_ " " ++ rb ++ CRLF
                ++ b_ "Content-Length: " ++ bytes_of_int (len body) ++ CRLF
                ++ CRLF ++ body).
Proof.
  intros Herr Hstatus Hlen Hrb.
  destruct (error_response_shape _ _ Herr) as [body Hresp].
  unfold send_error. rewrite Herr. clear Herr.
  destruct resp as [status reason headers rbody].
  cbn [Response.status Response.reason Response.body Response.headers] in *.
  injection Hresp as -> ->.
  cbn [forallb snd] in Hlen. rewrite andb_true_r in Hlen.
  exists body. split; [reflexivity|].
  rewrite send_response_closed_form with
    (line := b_ "HTTP/1.1 " ++ bytes_of_int status ++ b_ " " ++ rb ++ CRLF)
    (hlines := [b_ "Content-Length: " ++ bytes_of_int (len body) ++ CRLF]).
  - cbn [Response.body concat]. f_equal.
    now rewrite app_nil_r, <- !app_assoc.
  - unfold status_line. cbn [Response.status Response.reason].
    rewrite (format_fits _ Hstatus). cbn [text_of encode_line].
    unfold str_of_int.
    rewrite (@encode_latin1_app (u "HTTP/1.1 ") _ (b_ "HTTP/1.1 ")
               (bytes_of_int status ++ b_ " " ++ rb ++ CRLF));
      [reflexivity|apply encode_latin1_u|].
    repeat (apply encode_latin1_app; [apply encode_latin1_u|]).
    apply encode_latin1_app; [exact Hrb|reflexivity].
  - cbn [Response.headers].
    constructor; [|constructor].
    unfold header_line. rewrite (format_fits _ Hlen).
    cbn [text_of encode_line]. unfold str_of_int.
    change (b_ "Content-Length: ") with (b_ "Content-Length" ++ b_ ": ").
    rewrite <- app_assoc.
    rewrite (@encode_latin1_app (u "Content-Length") _ (b_ "Content-Length")
               (b_ ": " ++ bytes_of_int (len body) ++ CRLF));
      [reflexivity|apply encode_latin1_u|].
    repeat (apply encode_latin1_app; [apply encode_latin1_u|]).
    reflexivity.
Qed.

Lemma send_error_wire_witness :
  exists body,
    Some [xc3; xa9] = Some body
    /\ send_error (fun _ => []) (HTTPError 404 (u "Not Found") (Some [233%N]))
       = inr (b_ "HTTP/1.1 " ++ bytes_of_int 404 ++ b_ " " ++ b_ "Not Found"
                ++ CRLF ++ b_ "Content-Length: " ++ bytes_of_int (len body)
                ++ CRLF ++ CRLF ++ body).
Proof.
  apply (@send_error_wire (fun _ => [])
           (HTTPError 404 (u "Not Found") (Some [233%N]))
           (Response.mk 404 (u "Not Found")
              (Some [(u "Content-Length", Int 2)]) (Some [xc3; xa9]))
           (b_ "Not Found")).
  - reflexivity.
  - reflexivity.
  - reflexivity.
  - reflexivity.
Defined.


(** * Further properties of the connection worker *)

Section WorkerRuns.

Context {rt : runtime}.
Variable describe : exn -> str.
Variable handle_request : Request.t -> result Response.t.

Lemma serve_client_try_calls (conn : bytes) :
  forallb is_call (fst (fst (serve_client_try handle_request conn))) = true.
Proof.
  unfold serve_client_try.
  destruct (parse_request conn) as [e|req]; [reflexivity|].
  destruct (handle_request req) as [e|resp]; [reflexivity|].
  destruct (send_response resp); reflexivity.
Qed.

Lemma serve_client_send_error_raises (th : thread) (conn : bytes)
  (self : server) (tried : list event) (req : option Request.t)
  (e e' : exn) :
  serve_client_try handle_request conn = (tried, req, Some e) ->
  e <> ConnectionResetError ->
  send_error describe e = inl e' ->
  exists events,
    serve_client describe handle_request th conn self
    = (events, Raises e', self)
    /\ forallb is_call events = true.
Proof.
  intros Htry Hreset Hsend.
  pose proof (serve_client_try_calls conn) as Hcalls.
  unfold serve_client. rewrite Htry in *. cbn [fst] in Hcalls.
  unfold send_error in Hsend.
  destruct e; try contradiction;
    (destruct (error_response describe _) as [e1|resp];
     [injection Hsend as ->; exists tried; split; [reflexivity|assumption]|];
     rewrite Hsend; exists (tried ++ [Send resp]); split; [reflexivity|];
     rewrite forallb_app, Hcalls; reflexivity).
Qed.

Lemma serve_client_handles (th : thread) (conn : bytes) (self : server)
  (events : list event) (ending : outcome) (self' : server) :
  serve_client describe handle_request th conn self
  = (events, ending, self') ->
  (length (filter is_handle events) <= 1)%nat
  /\ forall req, In (Handle req) events -> parse_request conn = inr req.
Proof.
  unfold serve_client, serve_client_try, remove_current_thread.
  destruct (parse_request conn) as [e0|req0];
    [|destruct (handle_request req0) as [e0|resp0];
      [|destruct (send_response resp0) as [e0|out0]]];
    try (destruct e0);
    repeat match goal with
           | |- context [error_response describe ?x] =>
               destruct (error_response describe x)
           | |- context [match send_response ?x with _ => _ end] =>
               destruct (send_response x)
           end;
    (destruct (s_lock self);
     [|destruct (registry_remove th (s_threads self))]);
    intros H0; injection H0 as <- <- <-;
    (split; [simpl; lia|]);
    intros req Hin; simpl in Hin;
    repeat match goal with
           | H : _ \/ _ |- _ => destruct H as [H|H]
           | H : False |- _ => destruct H
           end;
    try discriminate; try (injection Hin as <-; reflexivity).
Qed.

End WorkerRuns.

(** X7.  When an exception other than [ConnectionResetError] leaves the
    [try] block of [serve_client] and [send_error] raises in turn, the
    worker ends with the exception of [send_error].  It has then made no
    call but of the handler and of [send_response]: it has closed neither
    the connection nor the stream of the request, it has not taken the
    lock, its handle has not been removed, and the state of the server is
    as it was. *)
Theorem serve_client_dies {rt : runtime} (describe : exn -> str)
  (handle_request : Request.t -> result Response.t) (th : thread)
  (conn : bytes) (self : server) (tried : list event)
  (req : option Request.t) (e e' : exn) :
  serve_client_try handle_request conn = (tried, req, Some e) ->
  e <> ConnectionResetError ->
  send_error describe e = inl e' ->
  exists events,
    serve_client describe handle_request th conn self
    = (events, Raises e', self)
    /\ forallb is_call events = true
    /\ ~ In CloseConn events
    /\ ~ In CloseRfile events
    /\ ~ In Acquire events
    /\ forall th', ~ In (Remove th') events.
Proof.
  intros Htry Hreset Hsend.
  destruct (@serve_client_send_error_raises _ describe handle_request th
              conn self _ _ _ _ Htry Hreset Hsend)
    as (events & Hrun & Hcalls).
  exists events. split; [assumption|]. split; [assumption|].
  assert (Hnot : forall ev, is_call ev = false -> ~ In ev events).
  { intros ev Hev Hin.
    rewrite forallb_forall in Hcalls. specialize (Hcalls ev Hin).
    congruence. }
  split; [now apply Hnot|]. split; [now apply Hnot|].
  split; [now apply Hnot|]. intros th'. now apply Hnot.
Qed.

Lemma serve_client_dies_witness :
  exists events,
    @serve_client typical (fun _ => [])
      (fun _ => inl (HTTPError 404 [1053%N; 1077%N; 1090%N] None)) 5%nat
      (b_ "GET / HTTP/1.1" ++ CRLF ++ b_ "Host: h" ++ CRLF ++ CRLF)
      (mk_server [5%nat] false)
    = (events, Raises UnicodeEncodeError, mk_server [5%nat] false)
    /\ forallb is_call events = true
    /\ ~ In CloseConn events
    /\ ~ In CloseRfile events
    /\ ~ In Acquire events
    /\ forall th', ~ In (Remove th') events.
Proof.
  apply (@serve_client_dies typical (fun _ => [])
           (fun _ => inl (HTTPError 404 [1053%N; 1077%N; 1090%N] None))
           5%nat
           (b_ "GET / HTTP/1.1" ++ CRLF ++ b_ "Host: h" ++ CRLF ++ CRLF)
           (mk_server [5%nat] false)
           [Handle (Request.mk (u "GET") (u "/") (u "HTTP/1.1")
                      [(u "Host", u "h")] [])]
           (Some (Request.mk (u "GET") (u "/") (u "HTTP/1.1")
                    [(u "Host", u "h")] []))
           (HTTPError 404 [1053%N; 1077%N; 1090%N] None)
           UnicodeEncodeError).
  - reflexivity.
  - discriminate.
  - reflexivity.
Defined.

(** X8.  In every run of [serve_client] the handler is called at most
    once, and only with the request that [parse_request] returned for the
    connection; a connection that fails to parse never reaches the
    handler. *)
Theorem handler_called_once {rt : runtime} (describe : exn -> str)
  (handle_request : Request.t -> result Response.t) (th : thread)
  (conn : bytes) (self : server) (events : list event) (ending : outcome)
  (self' : server) :
  serve_client describe handle_request th conn self
  = (events, ending, self') ->
  (length (filter is_handle events) <= 1)%nat
  /\ (forall req, In (Handle req) events -> parse_request conn = inr req)
  /\ (forall e, parse_request conn = inl e ->
                forall req, ~ In (Handle req) events).
Proof.
  intros H0.
  destruct (@serve_client_handles _ _ _ _ _ _ _ _ _ H0) as [Hcount Hreq].
  split; [assumption|]. split; [assumption|].
  intros e He req Hin. apply Hreq in Hin. congruence.
Qed.

Lemma handler_called_once_witness :
  (length
     (filter is_handle
        [Send (Response.mk 505 (u "HTTP Version Not Supported")
                 (Some [(u "Content-Length", Int 26)])
                 (Some (b_ "HTTP Version Not Supported")));
         CloseConn; Acquire; Remove 3%nat; Release]) <= 1)%nat
  /\ (forall req,
         In (Handle req)
           [Send (Response.mk 505 (u "HTTP Version Not Supported")
                    (Some [(u "Content-Length", Int 26)])
                    (Some (b_ "HTTP Version Not Supported")));
            CloseConn; Acquire; Remove 3%nat; Release] ->
         @parse_request typical (b_ "GET / HTTP/1.0" ++ CRLF ++ CRLF)
         = inr req)
  /\ (forall e,
         @parse_request typical (b_ "GET / HTTP/1.0" ++ CRLF ++ CRLF)
         = inl e ->
         forall req,
           ~ In (Handle req)
               [Send (Response.mk 505 (u "HTTP Version Not Supported")
                        (Some [(u "Content-Length", Int 26)])
                        (Some (b_ "HTTP Version Not Supported")));
                CloseConn; Acquire; Remove 3%nat; Release]).
Proof.
  apply (@handler_called_once typical (fun _ => [])
           (fun _ => inr (Response.mk 200 (u "OK") None None)) 3%nat
           (b_ "GET / HTTP/1.0" ++ CRLF ++ CRLF) (mk_server [3%nat] false)
           [Send (Response.mk 505 (u "HTTP Version Not Supported")
                    (Some [(u "Content-Length", Int 26)])
                    (Some (b_ "HTTP Version Not Supported")));
            CloseConn; Acquire; Remove 3%nat; Release] Returns
           (mk_server [] false)).
  vm_compute; reflexivity.
Defined.

(** * Further properties of the body *)

Lemma read_app `{runtime} (size : Z) (rfile data rest : bytes) :
  read size rfile = inr (data, rest) -> data ++ rest = rfile.
Proof.
  unfold read.
  destruct (_ || _); [discriminate|].
  destruct (size <? -1); [discriminate|].
  destruct (size =? -1);
    [intros H0; injection H0 as <- <-; apply app_nil_r|].
  destruct (size =? 0); [intros H0; injection H0 as <- <-; reflexivity|].
  destruct (_ <? size); [discriminate|].
  destruct (can_allocate size); [|discriminate].
  intros H0; injection H0 as <- <-. apply firstn_skipn.
Qed.

(** X10.  When [body] returns, it has lost no byte and changed nothing
    else: the bytes it returns followed by the stream it leaves are the
    stream it found, method, target, version and headers stay as they
    are, and a call that returns [None] leaves the request as it is. *)
Theorem body_keeps_stream {rt : runtime} (req : Request.t)
  (out : option bytes) (req' : Request.t) :
  Request.body req = inr (out, req') ->
  match out with Some data => data | None => [] end ++ Request.rfile req'
  = Request.rfile req
  /\ Request.method req' = Request.method req
  /\ Request.target req' = Request.target req
  /\ Request.version req' = Request.version req
  /\ Request.headers req' = Request.headers req
  /\ (out = None -> req' = req).
Proof.
  unfold Request.body.
  destruct (email.get (Request.headers req) (u "Content-Length"))
    as [[|c size]|].
  - intros H0; injection H0 as <- <-. auto 10.
  - destruct (int (c :: size)) as [n|]; [|discriminate].
    destruct (read n (Request.rfile req)) as [e|[data rest]] eqn:Hread;
      [discriminate|].
    apply read_app in Hread.
    intros H0; injection H0 as <- <-.
    cbn [Request.rfile Request.method Request.target Request.version
           Request.headers].
    repeat split; [assumption|discriminate].
  - intros H0; injection H0 as <- <-. auto 10.
Qed.

Lemma body_keeps_stream_witness :
  b_ "ab" ++ b_ "cd" = b_ "abcd".
Proof.
  apply (@body_keeps_stream typical
           (Request.mk (u "PUT") (u "/f") (u "HTTP/1.1")
              [(u "Content-Length", u "2")] (b_ "abcd"))
           (Some (b_ "ab"))
           (Request.mk (u "PUT") (u "/f") (u "HTTP/1.1")
              [(u "Content-Length", u "2")] (b_ "cd"))).
  reflexivity.
Defined.

(** X11.  The edge values of Content-Length: with an empty value [body]
    returns [None] and reads nothing; with a value that is no integer it
    raises [ValueError]; with the value -1 it returns everything up to
    the end of the stream; with a value below -1 that fits a
    [Py_ssize_t] it raises [ValueError]; with a value that does not fit
    one, or that is too large for any [bytes] object, it raises
    [OverflowError]; and with a positive value for which the machine has
    no room it raises [MemoryError]. *)
Theorem body_edge_values {rt : runtime} (req : Request.t) (size : str) :
  email.get (Request.headers req) (u "Content-Length") = Some size ->
  (size = [] -> Request.body req = inr (None, req))
  /\ (size <> [] -> int size = None -> Request.body req = inl ValueError)
  /\ (int size = Some (-1) ->
      Request.body req
      = inr (Some (Request.rfile req),
             Request.mk (Request.method req) (Request.target req)
               (Request.version req) (Request.headers req) []))
  /\ (forall n, int size = Some n ->
        - PY_SSIZE_T_MAX - 1 <= n -> n < -1 ->
        Request.body req = inl ValueError)
  /\ (forall n, int size = Some n ->
        n < - PY_SSIZE_T_MAX - 1 \/ PY_SSIZE_T_MAX - PyBytesObject_SIZE < n ->
        Request.body req = inl OverflowError)
  /\ (forall n, int size = Some n ->
        0 < n -> n <= PY_SSIZE_T_MAX - PyBytesObject_SIZE ->
        can_allocate n = false ->
        Request.body req = inl MemoryError).
Proof.
  intros Hget. unfold Request.body. rewrite Hget.
  split; [intros ->; reflexivity|].
  split; [|split; [|split; [|split]]].
  - intros Hne Hint. destruct size; [contradiction|]. now rewrite Hint.
  - intros Hint. destruct size; [discriminate Hint|]. now rewrite Hint.
  - intros n Hint Hlow Hn.
    destruct size; [discriminate Hint|]. rewrite Hint.
    unfold read, PY_SSIZE_T_MAX in *.
    destruct (n <? - (2 ^ 63 - 1) - 1) eqn:E1;
      [apply Z.ltb_lt in E1; lia|].
    destruct (2 ^ 63 - 1 <? n) eqn:E2; [apply Z.ltb_lt in E2; lia|].
    cbn [orb]. now rewrite (proj2 (Z.ltb_lt n (-1)) Hn).
  - intros n Hint Hn.
    destruct size; [discriminate Hint|]. rewrite Hint.
    unfold read, PY_SSIZE_T_MAX, PyBytesObject_SIZE in *.
    destruct (n <? - (2 ^ 63 - 1) - 1) eqn:E1; [reflexivity|].
    destruct (2 ^ 63 - 1 <? n) eqn:E2; [reflexivity|].
    apply Z.ltb_ge in E1, E2. cbn [orb].
    destruct (n <? -1) eqn:E3; [apply Z.ltb_lt in E3; lia|].
    destruct (n =? -1) eqn:E4; [apply Z.eqb_eq in E4; lia|].
    destruct (n =? 0) eqn:E0; [apply Z.eqb_eq in E0; lia|].
    destruct (2 ^ 63 - 1 - 33 <? n) eqn:E5; [reflexivity|].
    apply Z.ltb_ge in E5. lia.
  - intros n Hint Hn Hmax Halloc.
    destruct size; [discriminate Hint|]. rewrite Hint.
    unfold read, PY_SSIZE_T_MAX, PyBytesObject_SIZE in *.
    rewrite Halloc.
    destruct (n <? - (2 ^ 63 - 1) - 1) eqn:E1;
      [apply Z.ltb_lt in E1; lia|].
    destruct (2 ^ 63 - 1 <? n) eqn:E2; [apply Z.ltb_lt in E2; lia|].
    destruct (n <? -1) eqn:E3; [apply Z.ltb_lt in E3; lia|].
    destruct (n =? -1) eqn:E4; [apply Z.eqb_eq in E4; lia|].
    destruct (n =? 0) eqn:E0; [apply Z.eqb_eq in E0; lia|].
    destruct (2 ^ 63 - 1 - 33 <? n) eqn:E5; [apply Z.ltb_lt in E5; lia|].
    reflexivity.
Qed.

Lemma body_edge_values_witness :
  @Request.body typical
    (Request.mk (u "PUT") (u "/f") (u "HTTP/1.1")
       [(u "Content-Length", u "-2")] (b_ "abcd"))
  = inl ValueError
  /\ @Request.body typical
       (Request.mk (u "PUT") (u "/f") (u "HTTP/1.1")
          [(u "Content-Length", u "9223372036854775808")] (b_ "abcd"))
     = inl OverflowError
  /\ @Request.body typical
       (Request.mk (u "PUT") (u "/f") (u "HTTP/1.1")
          [(u "Content-Length", u "-1")] (b_ "abcd"))
     = inr (Some (b_ "abcd"),
            Request.mk (u "PUT") (u "/f") (u "HTTP/1.1")
              [(u "Content-Length", u "-1")] []).
Proof.
  split; [|split].
  - apply (proj1 (proj2 (proj2 (proj2
             (@body_edge_values typical
                (Request.mk (u "PUT") (u "/f") (u "HTTP/1.1")
                   [(u "Content-Length", u "-2")] (b_ "abcd"))
                (u "-2") eq_refl)))) (-2)).
    + reflexivity.
    + vm_compute; discriminate.
    + lia.
  - apply (proj1 (proj2 (proj2 (proj2 (proj2
             (@body_edge_values typical
                (Request.mk (u "PUT") (u "/f") (u "HTTP/1.1")
                   [(u "Content-Length", u "9223372036854775808")]
                   (b_ "abcd"))
                (u "9223372036854775808") eq_refl))))) (2 ^ 63)).
    + reflexivity.
    + right. vm_compute; reflexivity.
  - apply (proj1 (proj2 (proj2
             (@body_edge_values typical
                (Request.mk (u "PUT") (u "/f") (u "HTTP/1.1")
                   [(u "Content-Length", u "-1")] (b_ "abcd"))
                (u "-1") eq_refl)))).
    reflexivity.
Defined.

(** * Headers written and read back *)


























(** * A connection reset in the handler *)

(** X13.  When the handler raises [ConnectionResetError], the worker
    sends nothing, neither a response nor an error, and does not close
    the connection: after the call of the handler it closes the stream of
    the request and goes on to lines 108 to 110. *)
Theorem serve_client_reset {rt : runtime} (describe : exn -> str)
  (handle_request : Request.t -> result Response.t) (th : thread)
  (conn : bytes) (self : server) (req : Request.t) :
  parse_request conn = inr req ->
  handle_request req = inl ConnectionResetError ->
  serve_client describe handle_request th conn self
  = let '(last, ending, self') := remove_current_thread th self in
    (Handle req :: CloseRfile :: last, ending, self').
Proof.
  intros Hparse Hreset. unfold serve_client, serve_client_try.
  rewrite Hparse, Hreset.
  destruct (remove_current_thread th self) as [[last ending] self'].
  reflexivity.
Qed.

Lemma serve_client_reset_witness :
  @serve_client typical (fun _ => []) (fun _ => inl ConnectionResetError)
    2%nat (b_ "GET / HTTP/1.1" ++ CRLF ++ b_ "Host: h" ++ CRLF ++ CRLF)
    (mk_server [2%nat] false)
  = ([Handle (Request.mk (u "GET") (u "/") (u "HTTP/1.1")
                [(u "Host", u "h")] []);
      CloseRfile; Acquire; Remove 2%nat; Release],
     Returns, mk_server [] false).
Proof.
  apply (@serve_client_reset typical (fun _ => [])
           (fun _ => inl ConnectionResetError) 2%nat
           (b_ "GET / HTTP/1.1" ++ CRLF ++ b_ "Host: h" ++ CRLF ++ CRLF)
           (mk_server [2%nat] false)
           (Request.mk (u "GET") (u "/") (u "HTTP/1.1") [(u "Host", u "h")]
              [])).
  - reflexivity.
  - reflexivity.
Defined.

(** * Integers written and read back *)

Lemma u_String (a : ascii) (s : string) :
  u (String a s) = Byte.to_N (byte_of_ascii a) :: u s.
Proof. reflexivity. Qed.

Lemma u_string_of_uint (d : Decimal.uint) :
  u (NilEmpty.string_of_uint d) = digits d.
Proof.
  induction d; cbn [NilEmpty.string_of_uint digits]; [reflexivity|..];
    rewrite u_String, IHd; reflexivity.
Qed.

Lemma scan_digits_digits (d : Decimal.uint) (acc k : Z) :
  scan_digits acc k (digits d) = Some (horner acc d, k + len (digits d), []).
Proof.
  revert acc k; induction d; intros acc k; cbn [digits horner];
    [rewrite len_nil, Z.add_0_r; reflexivity|..];
    cbn [scan_digits];
    match goal with
    | |- context [is_digit ?c] => change (is_digit c) with true
    end;
    cbn iota;
    match goal with
    | |- context [Z.of_N ?c - 48] =>
        let v := eval vm_compute in (Z.of_N c - 48) in
        change (Z.of_N c - 48) with v
    end;
    rewrite IHd, len_cons, Z.add_assoc; reflexivity.
Qed.

Lemma horner_of_uint_acc (d : Decimal.uint) (p : positive) :
  Z.pos (Pos.of_uint_acc d p) = horner (Z.pos p) d.
Proof.
  revert p; induction d; intros p; cbn [Pos.of_uint_acc horner];
    [reflexivity|..]; rewrite IHd; f_equal; lia.
Qed.

Lemma horner_of_uint (d : Decimal.uint) : Z.of_uint d = horner 0 d.
Proof.
  unfold Z.of_uint.
  induction d; cbn [Pos.of_uint horner]; [reflexivity|assumption|..];
    cbn [Z.of_N]; rewrite horner_of_uint_acc; reflexivity.
Qed.

Lemma digits_is_digit (d : Decimal.uint) : forallb is_digit (digits d) = true.
Proof. induction d; cbn [digits forallb]; [reflexivity|..]; assumption. Qed.

Lemma transform_space_ascii (s : str) :
  forallb (fun c => (c <? 127)%N) s = true -> transform_space s = Some s.
Proof.
  induction s as [|c s IH]; [reflexivity|].
  simpl. intros H. apply andb_prop in H as [Hc Hs].
  rewrite (IH Hs). unfold to_ascii_space. now rewrite Hc.
Qed.

Lemma digits_ascii (s : str) :
  forallb is_digit s = true -> forallb (fun c => (c <? 127)%N) s = true.
Proof.
  rewrite !forallb_forall. intros H c Hc. specialize (H c Hc).
  unfold is_digit in H. apply andb_prop in H as [_ H].
  apply N.leb_le in H. apply N.ltb_lt. lia.
Qed.

Lemma transform_space_digits (s : str) :
  forallb is_digit s = true -> transform_space s = Some s.
Proof. intros H. now apply transform_space_ascii, digits_ascii. Qed.

Lemma digit_not_special (c : N) :
  is_digit c = true ->
  c_isspace c = false /\ (c =? 43)%N = false /\ (c =? 45)%N = false
  /\ (c =? 95)%N = false.
Proof.
  unfold is_digit, c_isspace. intros H.
  apply andb_prop in H as [H1 H2]. apply N.leb_le in H1, H2.
  repeat split.
  - apply orb_false_iff. split.
    + apply andb_false_iff. right. apply N.leb_gt. lia.
    + apply N.eqb_neq. lia.
  - apply N.eqb_neq. lia.
  - apply N.eqb_neq. lia.
  - apply N.eqb_neq. lia.
Qed.

Lemma int_unsigned (s : str) (v : Z) :
  s <> [] ->
  forallb is_digit s = true ->
  scan_digits 0 0 s = Some (v, len s, []) ->
  len s <= int_max_str_digits ->
  int s = Some v /\ int (45%N :: s) = Some (- v).
Proof.
  intros Hne Hd Hscan Hlen.
  assert (Hk : (len s =? 0) = false).
  { apply Z.eqb_neq. destruct s; [contradiction|]. rewrite len_cons.
    pose proof (len_nonneg s). lia. }
  assert (Hcap : (len s >? int_max_str_digits) = false)
    by now apply gtb_false.
  destruct s as [|c s']; [contradiction|].
  assert (Hc : is_digit c = true)
    by (simpl in Hd; now apply andb_prop in Hd as [Hc _]).
  destruct (digit_not_special c Hc) as (Hsp & H43 & H45 & H95).
  split.
  - unfold int. rewrite (transform_space_digits _ Hd).
    cbn [skip_space]. rewrite Hsp, H43, H45, H95, Hscan, Hk, Hcap.
    cbn [skip_space]. f_equal. lia.
  - unfold int.
    rewrite (transform_space_ascii (45%N :: c :: s'))
      by (change (true && forallb (fun c0 => (c0 <? 127)%N) (c :: s') = true);
          now rewrite (digits_ascii _ Hd)).
    cbn [skip_space]. change (c_isspace 45) with false. cbn iota.
    change (45 =? 43)%N with false. change (45 =? 45)%N with true.
    cbn iota. rewrite H95, Hscan, Hk, Hcap.
    cbn [skip_space]. first [reflexivity | f_equal; lia].
Qed.

Lemma int_numeral (d : Decimal.uint) :
  len (u (NilZero.string_of_uint d)) <= int_max_str_digits ->
  int (u (NilZero.string_of_uint d)) = Some (horner 0 d)
  /\ int (45%N :: u (NilZero.string_of_uint d)) = Some (- horner 0 d).
Proof.
  destruct d; [intros _; split; reflexivity|..];
    unfold NilZero.string_of_uint; rewrite u_string_of_uint; intros Hlen;
    (apply int_unsigned;
     [discriminate|apply digits_is_digit|
      rewrite scan_digits_digits; reflexivity|assumption]).
Qed.

(** X14.  [int] reads back every integer that the f-strings of
    [send_response] write: for every integer [n], negative or not, whose
    numeral has at most [int_max_str_digits] characters,
    [int(str(n))] is [n]. *)
Theorem int_str_of_int (n : Z) :
  len (str_of_int n) <= int_max_str_digits ->
  int (str_of_int n) = Some n.
Proof.
  unfold str_of_int. intros Hlen.
  pose proof (DecimalZ.of_to n) as Hn.
  destruct (Z.to_int n) as [d|d]; cbn [NilZero.string_of_int] in *;
    cbn [Z.of_int] in Hn; rewrite horner_of_uint in Hn.
  - rewrite <- Hn. now apply int_numeral.
  - rewrite u_String in *.
    change (Byte.to_N (byte_of_ascii "-")) with 45%N in *.
    rewrite <- Hn. apply int_numeral.
    rewrite len_cons in Hlen. lia.
Qed.

Lemma int_str_of_int_witness :
  int (str_of_int (-1234567890)) = Some (-1234567890).
Proof.
  apply int_str_of_int. vm_compute; discriminate.
Defined.

(** * UTF-8 as the error mapper uses it *)

Lemma utf8_char_scalar (c : N) :
  if is_scalar c
  then exists b, utf8_char c = Some b /\ 1 <= len b <= 4
  else utf8_char c = None.
Proof.
  unfold is_scalar, utf8_char.
  destruct (c <? 128)%N eqn:E1; destruct (c <? 2048)%N eqn:E2;
    destruct (55296 <=? c)%N eqn:E3; destruct (c <=? 57343)%N eqn:E4;
    destruct (c <? 65536)%N eqn:E5; destruct (c <? 1114112)%N eqn:E6;
    cbn [andb negb]; cbv iota;
    rewrite ?N.ltb_lt, ?N.ltb_ge, ?N.leb_le, ?N.leb_gt in *;
    first [ lia
          | reflexivity
          | eexists; split; [reflexivity|];
            rewrite ?len_cons, len_nil; lia ].
Qed.

Lemma encode_utf8_scalar (s : str) :
  if forallb is_scalar s
  then exists data,
      encode_utf8 s = Some data /\ len s <= len data <= 4 * len s
  else encode_utf8 s = None.
Proof.
  induction s as [|c s IH]; cbn [forallb encode_utf8].
  - exists []. split; [reflexivity|]. unfold len; simpl length; lia.
  - pose proof (utf8_char_scalar c) as Hc.
    destruct (is_scalar c); cbn [andb].
    + destruct Hc as (b & -> & Hb).
      destruct (forallb is_scalar s).
      * destruct IH as (data & -> & Hd). exists (b ++ data).
        split; [reflexivity|]. rewrite len_app, len_cons. lia.
      * now rewrite IH.
    + now rewrite Hc.
Qed.

Lemma byte_of_N_small (c : N) : (c <= 255)%N -> Byte.of_N c = Some (byte_of_N c).
Proof.
  intros Hc. unfold byte_of_N.
  destruct (Byte.of_N c) eqn:E; [reflexivity|].
  apply Byte.of_N_None_iff in E. lia.
Qed.

(** X15.  The encoding that [send_error] gives to its body fails exactly
    on a text with a surrogate or a code point beyond U+10FFFF; it takes
    between one and four bytes for each code point, so that the
    Content-Length of an error response is at least the number of
    characters of its text; and on a text of code points below 128 it
    gives the same bytes as the encoding of the status line. *)
Theorem encode_utf8_facts :
  (forall s : str, encode_utf8 s = None <-> forallb is_scalar s = false)
  /\ (forall (s : str) (data : bytes),
         encode_utf8 s = Some data -> len s <= len data <= 4 * len s)
  /\ (forall s : str,
         forallb (fun c => (c <? 128)%N) s = true ->
         encode_utf8 s = encode_latin1 s).
Proof.
  split; [|split].
  - intros s. pose proof (encode_utf8_scalar s) as H.
    destruct (forallb is_scalar s).
    + destruct H as (data & H & _). rewrite H. split; discriminate.
    + split; auto.
  - intros s data Hs. pose proof (encode_utf8_scalar s) as H.
    destruct (forallb is_scalar s).
    + destruct H as (data' & H & Hlen). congruence.
    + congruence.
  - induction s as [|c s IH]; [reflexivity|].
    cbn [forallb encode_utf8 encode_latin1]. intros H.
    apply andb_prop in H as [Hc Hs]. rewrite (IH Hs).
    unfold utf8_char. rewrite Hc.
    apply N.ltb_lt in Hc.
    rewrite byte_of_N_small by lia.
    destruct (encode_latin1 s); reflexivity.
Qed.

Lemma encode_utf8_facts_witness :
  len [233%N; 8364%N; 128512%N] <= len [xc3; xa9; xe2; x82; xac; xf0; x9f; x98; x80]
  <= 4 * len [233%N; 8364%N; 128512%N].
Proof.
  apply (proj1 (proj2 encode_utf8_facts)). reflexivity.
Defined.
